(** * tao::optional — a shallow embedding of [include/tao/result/result.hpp]

    The header defines the class template [optional<T>] (a discriminated
    union of "nothing" and one [T]) and its specialisation [optional<T&>]
    (a rebindable, nullable reference).  The member functions are embedded
    as computations of a small state-and-exception monad; the union and
    its discriminant are kept apart, as they are in the source, so that a
    member function which updates one and not the other can be observed. *)

From Stdlib Require Import List Bool Arith Lia.
Import ListNotations.

Set Implicit Arguments.

(** ** Outcomes and the monad of member functions *)

(** [class bad_optional_access : public std::exception]: the only exception
    type the header defines. *)
Inductive exception : Type :=
| bad_optional_access.

(** A call returns normally, leaves by an exception, or has no defined
    behaviour (it used an object outside its lifetime).  [Ok] and [Throw]
    carry the state of the objects in scope at that point. *)
Inductive outcome (S A : Type) : Type :=
| Ok (a : A) (s : S)
| Throw (e : exception) (s : S)
| Undefined.

Arguments Ok {S A} a s.
Arguments Throw {S A} e s.
Arguments Undefined {S A}.

Definition M (S A : Type) : Type := S -> outcome S A.

Definition ret {S A} (a : A) : M S A := fun s => Ok a s.

Definition bind {S A B} (m : M S A) (k : A -> M S B) : M S B :=
  fun s =>
    match m s with
    | Ok a s' => k a s'
    | Throw e s' => Throw e s'
    | Undefined => Undefined
    end.

Definition get {S} : M S S := fun s => Ok s s.
Definition gets {S A} (f : S -> A) : M S A := fun s => Ok (f s) s.
Definition modify {S} (f : S -> S) : M S unit := fun s => Ok tt (f s).
Definition throw {S A} (e : exception) : M S A := fun s => Throw e s.
Definition undefined {S A} : M S A := fun _ => Undefined.

Declare Scope cpp_scope.
Delimit Scope cpp_scope with cpp.
Notation "x <- c1 ;; c2" := (bind c1 (fun x => c2))
  (at level 61, c1 at next level, right associativity) : cpp_scope.
Notation "c1 ;; c2" := (bind c1 (fun _ => c2))
  (at level 61, right associativity) : cpp_scope.
Open Scope cpp_scope.

(** [raises m s]: the call leaves by an exception. *)
Definition raises {S A} (m : M S A) (s : S) : bool :=
  match m s with
  | Throw _ _ => true
  | _ => false
  end.

(** ** What the template asks of [T] *)

(** The abstract value of a [T] object is a Rocq value.  Copy construction
    and copy assignment give the destination the value of the source.  A
    move gives the destination the value of the source and leaves the
    source in the state [moved_from v] that [T]'s own move constructor and
    move assignment operator choose. *)
Class Movable (T : Type) : Type := moved_from : T -> T.

(** Trivially copyable types, such as [int]: a move is a copy. *)
#[global] Instance int_Movable : Movable nat := fun n => n.

(** [std::vector<int>]: the source of a move is left empty. *)
#[global] Instance vector_Movable : Movable (list nat) := fun _ => [].

(** [std::unique_ptr<int>] (its pointee, or null): the source of a move is
    left null. *)
#[global] Instance unique_ptr_Movable : Movable (option nat) := fun _ => None.

(** [std::forward<Opt>(rhs)] is an lvalue when [Opt] is deduced as a
    reference (copy operations) and an xvalue otherwise (move operations). *)
Inductive category : Type := lvalue | xvalue.

(** [class monostate {}]: stands for [void] in [optional<void>]. *)
Inductive monostate : Type := Monostate.

Module Optional.

(** ** detail::optional_storage_base *)

(** [union { dummy dummy_; T value_; }; bool has_value_;]
    [value_ = Some v] when the union member [value_] is within its lifetime
    and has the value [v]; [value_ = None] when [dummy_] is the active
    member or the lifetime of [value_] has ended. *)
Record optional (T : Type) : Type := mk_optional {
  value_ : option T;
  has_value_ : bool
}.

Arguments mk_optional {T} value_ has_value_.

Section Storage.
Context {T : Type}.

(** [optional_storage_base() : dummy_(), has_value_(false)];
    also [optional()] and [optional(nullopt_t)]. *)
Definition nullopt : optional T := mk_optional None false.

(** [optional_storage_base(in_place_t, U&&... u) : value_(u...),
    has_value_(true)], where [v] is the value [T(u...)] has; also
    [optional(U&& u)] and [optional(in_place_t, Args&&...)]. *)
Definition in_place (v : T) : optional T := mk_optional (Some v) true.

(** [bool has_value() const { return this->has_value_; }] *)
Definition has_value (o : optional T) : bool := has_value_ o.

(** The storage holds a live [T]. *)
Definition populated (o : optional T) : bool :=
  match value_ o with
  | Some _ => true
  | None => false
  end.

(** The class invariant: the storage is populated exactly when the
    discriminant is set. *)
Definition invariant (o : optional T) : Prop :=
  has_value_ o = populated o.

Definition invariantb (o : optional T) : bool :=
  Bool.eqb (has_value_ o) (populated o).

(** [this->value_] read as a [T]: defined only on a live object. *)
Definition get_value {S} (o : optional T) : M S T :=
  match value_ o with
  | Some v => ret v
  | None => undefined
  end.
End Storage.

(** ** Frames: the objects a member function works on *)

(** [*this], the argument [rhs], and a local variable of the function. *)
Inductive side : Type := This | Rhs | Local.

(** The events of [T]'s special member functions, in program order. *)
Inductive event : Type :=
| Constructed (w : side)   (* a constructor of T ran in w's storage *)
| Assigned (w : side)      (* T::operator= ran on w's stored object *)
| Destroyed (w : side)     (* T::~T ran on w's stored object *)
| Swapped.                 (* swap(T&, T&) ran on the two stored objects *)

(** [*this], the argument [rhs] (an [optional<U>]) and the trace of the
    calls made into [T] and [U]. *)
Record frame (T U : Type) : Type := mk_frame {
  this : optional T;
  rhs : optional U;
  trace : list event
}.

Arguments mk_frame {T U} this rhs trace.

(** One of the two optionals of a frame, as a member function names it. *)
Record member (T U X : Type) : Type := mk_member {
  who : side;
  view : frame T U -> optional X;
  update : optional X -> frame T U -> frame T U
}.

Section Primitives.
Context {T U : Type}.

Definition this_ : member T U T :=
  mk_member This (@this T U) (fun o fr => mk_frame o (rhs fr) (trace fr)).

Definition rhs_ : member T U U :=
  mk_member Rhs (@rhs T U) (fun o fr => mk_frame (this fr) o (trace fr)).

Definition emit (e : event) : M (frame T U) unit :=
  modify (fun fr => mk_frame (this fr) (rhs fr) (trace fr ++ [e])).

Context {X : Type} `{Movable X}.
Variable m : member T U X.

(** [m.has_value()] *)
Definition has_value_of : M (frame T U) bool :=
  gets (fun fr => has_value (view m fr)).

(** [m.has_value_ = b;] *)
Definition set_has_value (b : bool) : M (frame T U) unit :=
  modify (fun fr => update m (mk_optional (value_ (view m fr)) b) fr).

Definition set_storage (s : option X) : M (frame T U) unit :=
  modify (fun fr => update m (mk_optional s (has_value_ (view m fr))) fr).

(** [m.value_] handed to a constructor or assignment operator of the
    element type: as an lvalue it is copied from, as an xvalue
    ([std::move(m.value_)], [std::forward<Opt>(m).get()]) it is moved
    from and left in its moved-from state. *)
Definition forward (c : category) : M (frame T U) X :=
  fr <- get ;;
  v <- get_value (view m fr) ;;
  match c with
  | lvalue => ret v
  | xvalue => set_storage (Some (moved_from v)) ;; ret v
  end.

(** [new (std::addressof(m.value_)) X(v)]: an object of value [v] is
    created in the storage, whatever the storage held; the discriminant
    is not touched. *)
Definition placement_new (v : X) : M (frame T U) unit :=
  emit (Constructed (who m)) ;;
  set_storage (Some v).

(** [m.value_ = v;]: [X::operator=] on the stored object. *)
Definition assign_value (v : X) : M (frame T U) unit :=
  fr <- get ;;
  _ <- get_value (view m fr) ;;
  emit (Assigned (who m)) ;;
  set_storage (Some v).

(** [m.value_.~X();] *)
Definition destroy : M (frame T U) unit :=
  fr <- get ;;
  _ <- get_value (view m fr) ;;
  emit (Destroyed (who m)) ;;
  set_storage None.
End Primitives.

Arguments has_value_of {T U X} m.
Arguments set_has_value {T U X} m b.
Arguments set_storage {T U X} m s.
Arguments forward {T U X _} m c.
Arguments placement_new {T U X} m v.
Arguments assign_value {T U X} m v.
Arguments destroy {T U X} m.

(** ** detail::optional_operations_base *)

Section Operations.
Context {T U : Type} `{Movable T} `{Movable U}.

(** [void hard_reset() noexcept { get().~T(); this->has_value_ = false; }] *)
Definition hard_reset : M (frame T U) unit :=
  destroy this_ ;;
  set_has_value this_ false.

(** [template <typename... Args> void construct(Args&&... args)]:
    placement-new of [T(args...)], whose value is [v], then
    [this->has_value_ = true]. *)
Definition construct (v : T) : M (frame T U) unit :=
  placement_new this_ v ;;
  set_has_value this_ true.

(** The converting constructors [optional(const optional<U>& rhs)
    { this->construct( *rhs); }] ([c = lvalue]) and
    [optional(optional<U>&& rhs) { this->construct(std::move( *rhs)); }]
    ([c = xvalue]): [*rhs] is read without a test of [rhs.has_value()]. *)
Definition converting_constructor (conv : U -> T) (c : category)
  : M (frame T U) unit :=
  u <- forward rhs_ c ;;
  construct (conv u).

(** The converting assignment operators
    [optional &operator=(const optional<U>& rhs)] ([c = lvalue]) and
    [optional &operator=(optional<U>&& rhs)] ([c = xvalue]);
    [conv u] is the value [T] takes from a [U] of value [u]. *)
Definition converting_assign (conv : U -> T) (c : category) : M (frame T U) unit :=
  h <- has_value_of this_ ;;
  (if h then
     hr <- has_value_of rhs_ ;;
     if hr then
       u <- forward rhs_ c ;;
       assign_value this_ (conv u)
     else
       hard_reset
   else ret tt) ;;
  hr <- has_value_of rhs_ ;;
  if hr then
    u <- forward rhs_ c ;;
    construct (conv u)
  else ret tt.
End Operations.

Section SameType.
Context {T : Type} `{Movable T}.

(** [template <typename Opt> void assign(Opt &&rhs)], called by
    [optional_copy_assign_base::operator=(const ...&)] with an lvalue and
    by [optional_move_assign_base::operator=(...&&)] with
    [std::move(rhs)]. *)
Definition assign (c : category) : M (frame T T) unit :=
  h <- has_value_of this_ ;;
  (if h then
     hr <- has_value_of rhs_ ;;
     if hr then
       v <- forward rhs_ c ;;
       assign_value this_ v
     else
       destroy this_ ;;
       set_has_value this_ false
   else ret tt) ;;
  hr <- has_value_of rhs_ ;;
  if hr then
    v <- forward rhs_ c ;;
    construct v
  else ret tt.

(** The user-provided copy constructor of [optional_copy_base<T, false>]
    ([c = lvalue], [construct(rhs.get())]) and move constructor of
    [optional_move_base<T, false>] ([c = xvalue],
    [construct(std::move(rhs.get()))]).  [this] is the object under
    construction, its storage base already default-initialised. *)
Definition copy_move_constructor (c : category) : M (frame T T) unit :=
  hr <- has_value_of rhs_ ;;
  if hr then
    v <- forward rhs_ c ;;
    construct v
  else
    set_has_value this_ false.

(** [optional &operator=(nullopt_t) noexcept] *)
Definition assign_nullopt : M (frame T T) unit :=
  h <- has_value_of this_ ;;
  if h then
    destroy this_ ;;
    set_has_value this_ false
  else ret tt.

(** [optional &operator=(U&& u)], [v] being the value [u] converts to. *)
Definition assign_forward (v : T) : M (frame T T) unit :=
  h <- has_value_of this_ ;;
  if h then assign_value this_ v
  else construct v.

(** [constexpr T &value() &]; the reference is modelled by the value of
    the object it denotes. *)
Definition value : M (frame T T) T :=
  h <- has_value_of this_ ;;
  if h then
    fr <- get ;;
    get_value (this fr)
  else throw bad_optional_access.

(** [constexpr T &operator*() & { return this->value_; }] *)
Definition deref : M (frame T T) T :=
  fr <- get ;;
  get_value (this fr).

(** [template <typename... Args> T &emplace(Args&&... args)], [v] being
    the value of [T(args...)]. *)
Definition emplace (v : T) : M (frame T T) T :=
  assign_nullopt ;;
  construct v ;;
  value.

(** [void swap(optional &rhs)] *)
Definition swap : M (frame T T) unit :=
  h <- has_value_of this_ ;;
  if h then
    hr <- has_value_of rhs_ ;;
    if hr then
      a <- deref ;;
      b <- forward rhs_ lvalue ;;
      emit Swapped ;;
      set_storage this_ (Some b) ;;
      set_storage rhs_ (Some a)
    else
      v <- forward this_ xvalue ;;
      placement_new rhs_ v ;;
      destroy this_
  else
    hr <- has_value_of rhs_ ;;
    if hr then
      v <- forward rhs_ xvalue ;;
      placement_new this_ v ;;
      destroy rhs_
    else ret tt.

(** [template <typename U> constexpr T value_or(U&& u) const &] *)
Definition value_or (u : T) : M (frame T T) T :=
  h <- has_value_of this_ ;;
  if h then deref else ret u.

(** [void reset() noexcept] *)
Definition reset : M (frame T T) unit :=
  h <- has_value_of this_ ;;
  if h then
    destroy this_ ;;
    set_has_value this_ false
  else ret tt.

(** The events of a constructor call on a local variable, with
    [*this] as its argument, as the calling member function sees them. *)
Definition in_caller (e : event) : event :=
  match e with
  | Constructed w => Constructed (match w with This => Local | _ => This end)
  | Assigned w => Assigned (match w with This => Local | _ => This end)
  | Destroyed w => Destroyed (match w with This => Local | _ => This end)
  | Swapped => Swapped
  end.

(** [optional ret = *this;] ([c = lvalue]) or
    [optional ret = std::move( *this);] ([c = xvalue]): the copy or move
    constructor runs on a new object, with [*this] as its argument. *)
Definition construct_local (c : category) : M (frame T T) (optional T) :=
  fun fr =>
    match copy_move_constructor c (mk_frame nullopt (this fr) []) with
    | Ok _ callee =>
        Ok (this callee)
           (mk_frame (rhs callee) (rhs fr)
                     (trace fr ++ map in_caller (trace callee)))
    | Throw e _ => Throw e fr
    | Undefined => Undefined
    end.

(** [optional take() &] ([c = lvalue]) and [optional take() &&]
    ([c = xvalue]). *)
Definition take (c : category) : M (frame T T) (optional T) :=
  r <- construct_local c ;;
  reset ;;
  ret r.
End SameType.


(** ** Relational operators *)

Section Relational.
Context {S T U : Type}.
(** [T]'s own [==], [!=] and [<] against a [U]. *)
Variables (eqTU neTU ltTU : T -> U -> bool).

(** [operator==(const optional<T>& lhs, const optional<U>& rhs)]:
    [lhs.has_value() == rhs.has_value() &&
     (!lhs.has_value() || *lhs == *rhs)] *)
Definition operator_eq (lhs : optional T) (rhs : optional U) : M S bool :=
  if Bool.eqb (has_value lhs) (has_value rhs) then
    if negb (has_value lhs) then ret true
    else
      a <- get_value lhs ;;
      b <- get_value rhs ;;
      ret (eqTU a b)
  else ret false.

(** [operator<(const optional<T>& lhs, const optional<U>& rhs)]:
    [rhs.has_value() && (!lhs.has_value() || *lhs < *rhs)] *)
Definition operator_lt (lhs : optional T) (rhs : optional U) : M S bool :=
  if has_value rhs then
    if negb (has_value lhs) then ret true
    else
      a <- get_value lhs ;;
      b <- get_value rhs ;;
      ret (ltTU a b)
  else ret false.

(** [operator==(const optional<T>& lhs, nullopt_t)] *)
Definition operator_eq_nullopt (lhs : optional T) : bool :=
  negb (has_value lhs).

(** [operator==(nullopt_t, const optional<T>& rhs)] *)
Definition nullopt_operator_eq (rhs : optional T) : bool :=
  negb (has_value rhs).

(** [operator==(const optional<T>& lhs, const U &rhs)]:
    [lhs.has_value() ? *lhs == rhs : false] *)
Definition operator_eq_value (lhs : optional T) (rhs : U) : M S bool :=
  if has_value lhs then
    a <- get_value lhs ;;
    ret (eqTU a rhs)
  else ret false.

(** [operator!=(const optional<T>& lhs, const U &rhs)]:
    [lhs.has_value() ? *lhs != rhs : true] *)
Definition operator_ne_value (lhs : optional T) (rhs : U) : M S bool :=
  if has_value lhs then
    a <- get_value lhs ;;
    ret (neTU a rhs)
  else ret true.

(** [operator<(const optional<T>& lhs, const U &rhs)]:
    [lhs.has_value() ? *lhs < rhs : true] *)
Definition operator_lt_value (lhs : optional T) (rhs : U) : M S bool :=
  if has_value lhs then
    a <- get_value lhs ;;
    ret (ltTU a rhs)
  else ret true.
End Relational.

(** ** Monadic combinators *)

Section Combinators.
(** [W] is whatever part of the program a callable can read and write;
    a callable [F] invoked on a [T] returns its result and the new [W]. *)
Context {W T R : Type}.

(** [detail::invoke(std::forward<F>(f), x)] *)
Definition invoke {A} (f : T -> W -> A * W) (x : T) : M W A :=
  fun w => let (r, w') := f x w in Ok r w'.

(** [detail::optional_map_impl(Opt &&opt, F &&f)] for an [f] that
    returns a non-void [Ret]: the conditional expression converts the
    result of [f] to [optional<Ret>]. *)
Definition optional_map_impl (opt : optional T) (f : T -> W -> R * W)
  : M W (optional R) :=
  if has_value opt then
    x <- get_value opt ;;
    r <- invoke f x ;;
    ret (in_place r)
  else ret nullopt.

(** [detail::optional_map_impl(Opt &&opt, F &&f)] for an [f] that
    returns [void]. *)
Definition optional_map_impl_void (opt : optional T) (f : T -> W -> unit * W)
  : M W (optional monostate) :=
  if has_value opt then
    x <- get_value opt ;;
    invoke f x ;;
    ret (in_place Monostate)
  else ret nullopt.

(** [template <typename F> constexpr auto and_then(F &&f) &]:
    [has_value() ? detail::invoke(std::forward<F>(f), **this)
                 : result(nullopt)] *)
Definition and_then (opt : optional T) (f : T -> W -> optional R * W)
  : M W (optional R) :=
  if has_value opt then
    x <- get_value opt ;;
    invoke f x
  else ret nullopt.
End Combinators.

(** ** The public member functions as one interface *)

Section Methods.
Context {T : Type} `{Movable T}.

(** The observers and mutators of [optional<T>]; [rhs] of the frame is
    the argument of those that take another optional. *)
Inductive method : Type :=
| m_has_value
| m_operator_bool
| m_value
| m_deref
| m_value_or (u : T)
| m_reset
| m_assign_nullopt
| m_assign_forward (u : T)
| m_emplace (v : T)
| m_copy_assign
| m_move_assign
| m_swap
| m_take (c : category).

Inductive result : Type :=
| r_void
| r_bool (b : bool)
| r_ref (v : T)
| r_optional (o : optional T).

Definition call (m : method) : M (frame T T) result :=
  match m with
  | m_has_value => b <- has_value_of this_ ;; ret (r_bool b)
  | m_operator_bool => b <- has_value_of this_ ;; ret (r_bool b)
  | m_value => v <- value ;; ret (r_ref v)
  | m_deref => v <- deref ;; ret (r_ref v)
  | m_value_or u => v <- value_or u ;; ret (r_ref v)
  | m_reset => reset ;; ret r_void
  | m_assign_nullopt => assign_nullopt ;; ret r_void
  | m_assign_forward u => assign_forward u ;; ret r_void
  | m_emplace v => x <- emplace v ;; ret (r_ref x)
  | m_copy_assign => assign lvalue ;; ret r_void
  | m_move_assign => assign xvalue ;; ret r_void
  | m_swap => swap ;; ret r_void
  | m_take c => o <- take c ;; ret (r_optional o)
  end.

(** [m] is [value()]. *)
Definition is_value (m : method) : bool :=
  match m with
  | m_value => true
  | _ => false
  end.

(** The states an [optional<T>] object can be in: those of a newly
    constructed object, and those that a member function leaves [*this],
    its argument or its result in, when called on such objects. *)
Inductive reachable : optional T -> Prop :=
| reach_nullopt : reachable nullopt
| reach_in_place (v : T) : reachable (in_place v)
| reach_constructed (c : category) (src : optional T) (fr : frame T T) :
    reachable src ->
    copy_move_constructor c (mk_frame nullopt src []) = Ok tt fr ->
    reachable (this fr)
| reach_this (m : method) (a b : optional T) (r : result) (fr : frame T T) :
    reachable a -> reachable b ->
    call m (mk_frame a b []) = Ok r fr ->
    reachable (this fr)
| reach_rhs (m : method) (a b : optional T) (r : result) (fr : frame T T) :
    reachable a -> reachable b ->
    call m (mk_frame a b []) = Ok r fr ->
    reachable (rhs fr)
| reach_result (m : method) (a b o : optional T) (fr : frame T T) :
    reachable a -> reachable b ->
    call m (mk_frame a b []) = Ok (r_optional o) fr ->
    reachable o.
End Methods.

(** ** The remaining relational operators *)

Section RelationalRest.
Context {S T U : Type}.
(** [T]'s operators against a [U], and [U]'s against a [T]. *)
Variables (eqTU neTU ltTU gtTU leTU geTU : T -> U -> bool).
Variables (eqUT neUT ltUT gtUT leUT geUT : U -> T -> bool).

(** [operator!=(const optional<T>& lhs, const optional<U>& rhs)]:
    [lhs.has_value() != rhs.has_value() ||
     (lhs.has_value() && *lhs != *rhs)] *)
Definition operator_ne (lhs : optional T) (rhs : optional U) : M S bool :=
  if negb (Bool.eqb (has_value lhs) (has_value rhs)) then ret true
  else if has_value lhs then
    a <- get_value lhs ;;
    b <- get_value rhs ;;
    ret (neTU a b)
  else ret false.

(** [operator>]: [lhs.has_value() && (!rhs.has_value() || *lhs > *rhs)] *)
Definition operator_gt (lhs : optional T) (rhs : optional U) : M S bool :=
  if has_value lhs then
    if negb (has_value rhs) then ret true
    else
      a <- get_value lhs ;;
      b <- get_value rhs ;;
      ret (gtTU a b)
  else ret false.

(** [operator<=]: [!lhs.has_value() || (rhs.has_value() && *lhs <= *rhs)] *)
Definition operator_le (lhs : optional T) (rhs : optional U) : M S bool :=
  if negb (has_value lhs) then ret true
  else if has_value rhs then
    a <- get_value lhs ;;
    b <- get_value rhs ;;
    ret (leTU a b)
  else ret false.

(** [operator>=]: [!rhs.has_value() || (lhs.has_value() && *lhs >= *rhs)] *)
Definition operator_ge (lhs : optional T) (rhs : optional U) : M S bool :=
  if negb (has_value rhs) then ret true
  else if has_value lhs then
    a <- get_value lhs ;;
    b <- get_value rhs ;;
    ret (geTU a b)
  else ret false.

(** The operators against [nullopt_t], on either side. *)
Definition operator_ne_nullopt (lhs : optional T) : bool := has_value lhs.
Definition nullopt_operator_ne (rhs : optional T) : bool := has_value rhs.
Definition operator_lt_nullopt (_ : optional T) : bool := false.
Definition nullopt_operator_lt (rhs : optional T) : bool := has_value rhs.
Definition operator_le_nullopt (lhs : optional T) : bool := negb (has_value lhs).
Definition nullopt_operator_le (_ : optional T) : bool := true.
Definition operator_gt_nullopt (lhs : optional T) : bool := has_value lhs.
Definition nullopt_operator_gt (_ : optional T) : bool := false.
Definition operator_ge_nullopt (_ : optional T) : bool := true.
Definition nullopt_operator_ge (rhs : optional T) : bool := negb (has_value rhs).

(** [operator<=(const optional<T>& lhs, const U &rhs)]:
    [lhs.has_value() ? *lhs <= rhs : true] *)
Definition operator_le_value (lhs : optional T) (rhs : U) : M S bool :=
  if has_value lhs then
    a <- get_value lhs ;;
    ret (leTU a rhs)
  else ret true.

(** [operator>(const optional<T>& lhs, const U &rhs)]:
    [lhs.has_value() ? *lhs > rhs : false] *)
Definition operator_gt_value (lhs : optional T) (rhs : U) : M S bool :=
  if has_value lhs then
    a <- get_value lhs ;;
    ret (gtTU a rhs)
  else ret false.

(** [operator>=(const optional<T>& lhs, const U &rhs)]:
    [lhs.has_value() ? *lhs >= rhs : false] *)
Definition operator_ge_value (lhs : optional T) (rhs : U) : M S bool :=
  if has_value lhs then
    a <- get_value lhs ;;
    ret (geTU a rhs)
  else ret false.

(** [operator==(const U &lhs, const optional<T>& rhs)]:
    [rhs.has_value() ? lhs == *rhs : false] *)
Definition value_operator_eq (lhs : U) (rhs : optional T) : M S bool :=
  if has_value rhs then
    b <- get_value rhs ;;
    ret (eqUT lhs b)
  else ret false.

(** [operator!=(const U &lhs, const optional<T>& rhs)]:
    [rhs.has_value() ? lhs != *rhs : true] *)
Definition value_operator_ne (lhs : U) (rhs : optional T) : M S bool :=
  if has_value rhs then
    b <- get_value rhs ;;
    ret (neUT lhs b)
  else ret true.

(** [operator<(const U &lhs, const optional<T>& rhs)]:
    [rhs.has_value() ? lhs < *rhs : false] *)
Definition value_operator_lt (lhs : U) (rhs : optional T) : M S bool :=
  if has_value rhs then
    b <- get_value rhs ;;
    ret (ltUT lhs b)
  else ret false.

(** [operator<=(const U &lhs, const optional<T>& rhs)]:
    [rhs.has_value() ? lhs <= *rhs : false] *)
Definition value_operator_le (lhs : U) (rhs : optional T) : M S bool :=
  if has_value rhs then
    b <- get_value rhs ;;
    ret (leUT lhs b)
  else ret false.

(** [operator>(const U &lhs, const optional<T>& rhs)]:
    [rhs.has_value() ? lhs > *rhs : true] *)
Definition value_operator_gt (lhs : U) (rhs : optional T) : M S bool :=
  if has_value rhs then
    b <- get_value rhs ;;
    ret (gtUT lhs b)
  else ret true.

(** [operator>=(const U &lhs, const optional<T>& rhs)]:
    [rhs.has_value() ? lhs >= *rhs : true] *)
Definition value_operator_ge (lhs : U) (rhs : optional T) : M S bool :=
  if has_value rhs then
    b <- get_value rhs ;;
    ret (geUT lhs b)
  else ret true.
End RelationalRest.

(** ** The remaining combinators, make_optional and std::hash *)

Section CombinatorsRest.
Context {W T : Type}.

(** [return *this;] and [return rhs;] from a function that returns an
    [optional] by value: the copy constructor of
    [optional_copy_base<T, false>], as a function of its argument. *)
Definition copy_construct {S} (o : optional T) : M S (optional T) :=
  if has_value o then
    v <- get_value o ;;
    ret (in_place v)
  else ret nullopt.

(** [std::forward<F>(f)()] *)
Definition invoke0 {A} (f : W -> A * W) : M W A :=
  fun w => let (r, w') := f w in Ok r w'.

(** [optional<T> or_else(F &&f) const &] for an [f] that returns [void]:
    [if (has_value()) return *this; std::forward<F>(f)(); return nullopt;] *)
Definition or_else_void (opt : optional T) (f : W -> unit * W)
  : M W (optional T) :=
  if has_value opt then copy_construct opt
  else
    invoke0 f ;;
    ret nullopt.

(** [optional<T> or_else(F &&f) const &] for an [f] that returns an
    [optional<T>]: [has_value() ? *this : std::forward<F>(f)()] *)
Definition or_else (opt : optional T) (f : W -> optional T * W)
  : M W (optional T) :=
  if has_value opt then copy_construct opt
  else invoke0 f.

(** [template <typename F, typename U> U map_or(F &&f, U&& u) &]:
    [return has_value() ? detail::invoke(std::forward<F>(f), **this)
                        : std::forward<U>(u);]
    [R] is the type [f] returns, [A] the type [U] of the fallback, which
    is also the return type, and [C] the type of the conditional
    expression: each operand is converted to [C] ([of_result],
    [of_fallback]) and the selected one is converted from [C] to the
    return type ([to_return]). *)
Definition map_or {R A C} (of_result : R -> C) (of_fallback : A -> C)
  (to_return : C -> A) (opt : optional T) (f : T -> W -> R * W) (u : A)
  : M W A :=
  if has_value opt then
    x <- get_value opt ;;
    r <- invoke f x ;;
    ret (to_return (of_result r))
  else ret (to_return (of_fallback u)).

(** [template <typename F, typename U>
     detail::invoke_result_t<U> map_or_else(F &&f, U&& u) &]:
    [return has_value() ? detail::invoke(std::forward<F>(f), **this)
                        : std::forward<U>(u)();]
    [A] is the type the fallback callable [u] returns, which is also the
    return type; the conversions are those of [map_or]. *)
Definition map_or_else {R A C} (of_result : R -> C) (of_fallback : A -> C)
  (to_return : C -> A) (opt : optional T) (f : T -> W -> R * W)
  (u : W -> A * W) : M W A :=
  if has_value opt then
    x <- get_value opt ;;
    r <- invoke f x ;;
    ret (to_return (of_result r))
  else
    d <- invoke0 u ;;
    ret (to_return (of_fallback d)).

(** [conjunction(U&& u) const]:
    [has_value() ? result{u} : result{nullopt}] *)
Definition conjunction {U} (opt : optional T) (u : U) : optional U :=
  if has_value opt then in_place u else nullopt.

(** [constexpr optional disjunction(const optional &rhs) &]:
    [has_value() ? *this : rhs] *)
Definition disjunction {S} (opt rhs : optional T) : M S (optional T) :=
  if has_value opt then copy_construct opt else copy_construct rhs.

(** [make_optional(U&& v)]: [optional<Ret>(std::forward<U>(v))] *)
Definition make_optional (v : T) : optional T := in_place v.

(** [std::hash<tao::optional<T>>::operator()]:
    [if (!o.has_value()) return 0; return std::hash<T>()( *o);] *)
Definition hash {S} (hashT : T -> nat) (o : optional T) : M S nat :=
  if negb (has_value o) then ret 0
  else
    v <- get_value o ;;
    ret (hashT v).
End CombinatorsRest.

(** ** Accounting for the objects of type [T] *)

Section Accounting.
Context {T : Type}.





End Accounting.

End Optional.

(** * The specialisation [optional<T&>] *)

Module OptionalRef.

(** The address of an object. *)
Definition address : Type := nat.

(** [T *value_;] with [None] for [nullptr]. *)
Record optional_ref : Type := mk_optional_ref {
  value_ : option address
}.

(** [constexpr optional() noexcept : value_(nullptr) {}] *)
Definition nullopt : optional_ref := mk_optional_ref None.

(** [constexpr optional(U&& u) : value_(std::addressof(u))] *)
Definition bound_to (a : address) : optional_ref := mk_optional_ref (Some a).

(** [constexpr bool has_value() const noexcept { return value_ != nullptr; }] *)
Definition has_value (o : optional_ref) : bool :=
  match value_ o with
  | Some _ => true
  | None => false
  end.

(** [constexpr const T &value() const]; the reference returned is the
    address of the referent. *)
Definition value {S} (o : optional_ref) : M S address :=
  if has_value o then
    match value_ o with
    | Some a => ret a
    | None => undefined
    end
  else throw bad_optional_access.

(** An [optional<U>] of the value specialisation together with the address
    of its member [value_]. *)
Record located (U : Type) : Type := mk_located {
  object : Optional.optional U;
  storage : address
}.

(** [constexpr const T &value() const &] of [optional<U>], the reference
    being the address of [this->value_]. *)
Definition located_value {S U} (l : located U) : M S address :=
  if Optional.has_value (object l) then ret (storage l)
  else throw bad_optional_access.

(** What [operator=(const optional<U>&)] uses of its argument. *)
Class OptionalLike (O : Type) : Type := {
  rhs_has_value : O -> bool;
  rhs_value : forall {S : Type}, O -> M S address
}.

#[global] Instance optional_ref_OptionalLike : OptionalLike optional_ref :=
  {| rhs_has_value := has_value; rhs_value := fun S => @value S |}.

#[global] Instance located_OptionalLike (U : Type) : OptionalLike (located U) :=
  {| rhs_has_value := fun l => Optional.has_value (object l);
     rhs_value := fun S => @located_value S U |}.

(** [optional &operator=(nullopt_t) noexcept { value_ = nullptr; ... }] *)
Definition assign_nullopt : M optional_ref unit :=
  modify (fun _ => mk_optional_ref None).

(** [optional &operator=(const optional &rhs) = default;] *)
Definition copy_assign (rhs : optional_ref) : M optional_ref unit :=
  modify (fun _ => mk_optional_ref (value_ rhs)).

(** [optional &operator=(U&& u) { value_ = std::addressof(u); ... }] *)
Definition assign_forward (u : address) : M optional_ref unit :=
  modify (fun _ => mk_optional_ref (Some u)).

(** [template <typename U> optional &operator=(const optional<U>& rhs)
     { value_ = std::addressof(rhs.value()); return *this; }] *)
Definition converting_assign {O} `{OptionalLike O} (rhs : O)
  : M optional_ref unit :=
  p <- rhs_value rhs ;;
  modify (fun _ => mk_optional_ref (Some p)).

(** [void reset() noexcept { value_ = nullptr; }] *)
Definition reset : M optional_ref unit :=
  modify (fun _ => mk_optional_ref None).

(** [optional take() & { optional ret = *this; reset(); return ret; }] *)
Definition take : M optional_ref optional_ref :=
  r <- get ;;
  reset ;;
  ret r.

(** [void swap(optional &rhs) noexcept { std::swap(value_, rhs.value_); }],
    on the pair of [*this] and [rhs]. *)
Definition swap : M (optional_ref * optional_ref) unit :=
  modify (fun p => (mk_optional_ref (value_ (snd p)),
                    mk_optional_ref (value_ (fst p)))).

End OptionalRef.

(** * detail:: helpers of [helpers.hpp] *)

Module Detail.

(** [template <typename...> struct conjunction], on the [::value] of its
    arguments: [conjunction<>] is true, [conjunction<B>] is [B], and
    [conjunction<B, Bs...>] is [conjunction<Bs...>] when [B::value] holds
    and [B] otherwise. *)
Fixpoint conjunction (bs : list bool) : bool :=
  match bs with
  | [] => true
  | b :: bs' =>
      match bs' with
      | [] => b
      | _ :: _ => if b then conjunction bs' else b
      end
  end.

End Detail.

Import Optional.

(** * Properties *)

(** ** The two well-formed states *)

Lemma invariant_cases {T} (o : optional T) :
  invariant o <-> o = nullopt \/ exists v, o = in_place v.
Proof.
  destruct o as [[v|] [|]]; unfold invariant, nullopt, in_place; simpl; split;
    try discriminate; try (intros [E | [w E]]; discriminate); auto.
  - right. exists v. reflexivity.
Qed.

Lemma invariant_nullopt {T} : invariant (@nullopt T).
Proof. reflexivity. Qed.

Lemma invariant_in_place {T} (v : T) : invariant (in_place v).
Proof. reflexivity. Qed.

Create HintDb optional.
#[local] Hint Resolve invariant_nullopt invariant_in_place : optional.

(** Unfolds a member function down to the monad and evaluates it. *)
Ltac run :=
  cbv [call assign converting_assign copy_move_constructor assign_nullopt
       converting_constructor assign_forward value deref emplace swap value_or reset construct_local
       take hard_reset construct destroy assign_value placement_new forward
       set_storage set_has_value has_value_of emit get_value this_ rhs_
       view update who bind ret get gets modify throw undefined raises
       has_value nullopt in_place this rhs trace value_ has_value_
       operator_eq operator_lt operator_eq_nullopt nullopt_operator_eq
       operator_eq_value operator_ne_value operator_lt_value
       optional_map_impl optional_map_impl_void and_then invoke].

(** ** Assignment from another optional *)

(** The three cases of [assign] in which at most one side holds a value
    do what the header's comments say. *)
Lemma assign_only_rhs {T} `{Movable T} (c : category) (v : T) tr :
  assign c (mk_frame nullopt (in_place v) tr) =
  Ok tt (mk_frame (in_place v)
                  (in_place (match c with lvalue => v | xvalue => moved_from v end))
                  (tr ++ [Constructed This])).
Proof. destruct c; reflexivity. Qed.

Lemma assign_only_this {T} `{Movable T} (c : category) (v : T) tr :
  assign c (mk_frame (in_place v) nullopt tr) =
  Ok tt (mk_frame nullopt nullopt (tr ++ [Destroyed This])).
Proof. reflexivity. Qed.

Lemma assign_neither {T} `{Movable T} (c : category) tr :
  assign c (mk_frame (@nullopt T) nullopt tr) = Ok tt (mk_frame nullopt nullopt tr).
Proof. reflexivity. Qed.

(** When both sides hold a value, [assign] runs [T]'s assignment operator
    and then, the second test not being an [else] branch, also constructs
    a new [T] over the object just assigned, from what the first step left
    in [rhs]. *)
Lemma assign_both {T} `{Movable T} (c : category) (a b : T) tr :
  assign c (mk_frame (in_place a) (in_place b) tr) =
  Ok tt (mk_frame
           (in_place (match c with lvalue => b | xvalue => moved_from b end))
           (in_place (match c with
                      | lvalue => b
                      | xvalue => moved_from (moved_from b)
                      end))
           ((tr ++ [Assigned This]) ++ [Constructed This])).
Proof. destruct c; reflexivity. Qed.

(** C1 (defect in the code).  The claim: after [a = b] with both sides
    holding a value, [a]'s value is updated by assign-through and equals
    [b]'s prior value.  In the code, for
    [optional<std::unique_ptr<int>> a{std::make_unique<int>(1)},
     b{std::make_unique<int>(2)}; a = std::move(b);]
    the assign-through is followed by a construction from the moved-from
    [b] over the live object, so [a] ends holding a null pointer; the
    converting move assignment does the same; and for the copy assignment
    of [optional<std::vector<int>>] the values agree but the same two
    calls into [T] are made. *)
Theorem assign_both_holding_constructs_again :
  assign xvalue (mk_frame (in_place (Some 1)) (in_place (Some 2)) []) =
    Ok tt (mk_frame (in_place None) (in_place None)
                    [Assigned This; Constructed This]) /\
  converting_assign (fun u : option nat => u) xvalue
                    (mk_frame (in_place (Some 1)) (in_place (Some 2)) []) =
    Ok tt (mk_frame (in_place None) (in_place None)
                    [Assigned This; Constructed This]) /\
  assign lvalue (mk_frame (in_place [1]) (in_place [2]) []) =
    Ok tt (mk_frame (in_place [2]) (in_place [2])
                    [Assigned This; Constructed This]).
Proof. repeat split. Qed.

(** ** The validated accessor *)

Lemma value_raises {T} `{Movable T} (fr : frame T T) :
  raises value fr = negb (has_value (this fr)).
Proof.
  destruct fr as [[[v|] [|]] b tr]; reflexivity.
Qed.

Lemma call_raises {T} `{Movable T} (m : method) (fr : frame T T) :
  raises (call m) fr = is_value m && negb (has_value (this fr)).
Proof.
  destruct fr as [[[v|] [|]] [[w|] [|]] tr]; destruct m; try reflexivity;
    match goal with c : category |- _ => destruct c; reflexivity end.
Qed.

(** The functions that construct an optional or work on its storage do
    not throw. *)
Lemma construction_never_raises {T U} `{Movable T} `{Movable U} :
  (forall (c : category) (fr : frame T T),
      raises (copy_move_constructor c) fr = false /\
      raises (construct_local c) fr = false) /\
  (forall (c : category) (conv : U -> T) (fr : frame T U),
      raises (converting_constructor conv c) fr = false /\
      raises (converting_assign conv c) fr = false) /\
  (forall (v : T) (fr : frame T U),
      raises hard_reset fr = false /\ raises (construct v) fr = false).
Proof.
  repeat split.
  - destruct fr as [[[v|] [|]] [[w|] [|]] tr]; destruct c; reflexivity.
  - destruct fr as [[[v|] [|]] [[w|] [|]] tr]; destruct c; reflexivity.
  - destruct fr as [[[v|] [|]] [[w|] [|]] tr]; destruct c; reflexivity.
  - destruct fr as [[[v|] [|]] [[w|] [|]] tr]; destruct c; reflexivity.
  - destruct fr as [[[x|] [|]] b tr]; reflexivity.
Qed.

(** The combinators do not throw, whatever the (non-throwing) callables
    are. *)
Lemma combinators_never_raise {T R A C W S}
  (of_result : R -> C) (of_fallback : A -> C) (to_return : C -> A) :
  (forall opt (f : T -> W -> R * W) w,
      raises (optional_map_impl opt f) w = false) /\
  (forall opt (f : T -> W -> unit * W) w,
      raises (optional_map_impl_void opt f) w = false) /\
  (forall opt (f : T -> W -> optional R * W) w,
      raises (and_then opt f) w = false) /\
  (forall (opt : optional T) (f : W -> optional T * W) w,
      raises (or_else opt f) w = false) /\
  (forall (opt : optional T) (g : W -> unit * W) w,
      raises (or_else_void opt g) w = false) /\
  (forall (opt : optional T) (f : T -> W -> R * W) (u : A) w,
      raises (map_or of_result of_fallback to_return opt f u) w = false) /\
  (forall (opt : optional T) (f : T -> W -> R * W) (d : W -> A * W) w,
      raises (map_or_else of_result of_fallback to_return opt f d) w = false) /\
  (forall (a b : optional T) (s : S),
      raises (copy_construct a) s = false /\
      raises (disjunction a b) s = false).
Proof.
  repeat split.
  - intros [[v|] [|]] f w; run; try reflexivity; destruct (f v w); reflexivity.
  - intros [[v|] [|]] f w; run; try reflexivity; destruct (f v w); reflexivity.
  - intros [[v|] [|]] f w; run; try reflexivity; destruct (f v w); reflexivity.
  - intros [[v|] [|]] f w; cbv; try reflexivity; destruct (f w); reflexivity.
  - intros [[v|] [|]] g w; cbv; try reflexivity; destruct (g w); reflexivity.
  - intros [[v|] [|]] f u w; cbv; try reflexivity; destruct (f v w); reflexivity.
  - intros [[v|] [|]] f d w; cbv; try reflexivity;
      try (destruct (f v w); reflexivity); destruct (d w); reflexivity.
  - destruct a as [[v|] [|]]; reflexivity.
  - destruct a as [[v|] [|]], b as [[x|] [|]]; reflexivity.
Qed.

(** The relational operators and the hash do not throw. *)
Lemma operators_never_raise {S T U}
  (eqTU neTU ltTU gtTU leTU geTU : T -> U -> bool)
  (eqUT neUT ltUT gtUT leUT geUT : U -> T -> bool) (hashT : T -> nat)
  (a : optional T) (b : optional U) (u : U) (s : S) :
  (raises (operator_eq eqTU a b) s = false /\
   raises (operator_ne neTU a b) s = false /\
   raises (operator_lt ltTU a b) s = false /\
   raises (operator_gt gtTU a b) s = false /\
   raises (operator_le leTU a b) s = false /\
   raises (operator_ge geTU a b) s = false) /\
  (raises (operator_eq_value eqTU a u) s = false /\
   raises (operator_ne_value neTU a u) s = false /\
   raises (operator_lt_value ltTU a u) s = false /\
   raises (operator_gt_value gtTU a u) s = false /\
   raises (operator_le_value leTU a u) s = false /\
   raises (operator_ge_value geTU a u) s = false) /\
  (raises (value_operator_eq eqUT u a) s = false /\
   raises (value_operator_ne neUT u a) s = false /\
   raises (value_operator_lt ltUT u a) s = false /\
   raises (value_operator_gt gtUT u a) s = false /\
   raises (value_operator_le leUT u a) s = false /\
   raises (value_operator_ge geUT u a) s = false) /\
  raises (hash hashT a) s = false.
Proof.
  destruct a as [[v|] [|]], b as [[w|] [|]]; repeat split.
Qed.

(** C2.  [value()] returns the held value when the optional holds one and
    throws [bad_optional_access] when it is empty; it throws exactly when
    [has_value()] is false; and no other function of [optional<T>] throws
    it: not the other member functions, the copy, move and converting
    constructors and assignments, the combinators ([map], [and_then],
    [or_else], [map_or], [map_or_else], [disjunction]), the relational
    operators between two optionals and against a bare value on either
    side, or the hash.  (The operators against [nullopt], [conjunction]
    and [make_optional] compute a plain result and have no way to
    throw.) *)
Theorem value_is_the_sole_validated_accessor
  {T U R A C W S} `{Movable T} `{Movable U}
  (eqTU neTU ltTU gtTU leTU geTU : T -> U -> bool)
  (eqUT neUT ltUT gtUT leUT geUT : U -> T -> bool) (hashT : T -> nat)
  (of_result : R -> C) (of_fallback : A -> C) (to_return : C -> A) :
  (forall (v : T) b tr,
      value (mk_frame (in_place v) b tr) = Ok v (mk_frame (in_place v) b tr)) /\
  (forall (b : optional T) tr,
      value (mk_frame nullopt b tr) =
      Throw bad_optional_access (mk_frame nullopt b tr)) /\
  (forall fr : frame T T, raises value fr = negb (has_value (this fr))) /\
  (forall (m : method) (fr : frame T T),
      raises (call m) fr = is_value m && negb (has_value (this fr))) /\
  (forall (c : category) (fr : frame T T),
      raises (copy_move_constructor c) fr = false /\
      raises (construct_local c) fr = false) /\
  (forall (c : category) (conv : U -> T) (fr : frame T U),
      raises (converting_constructor conv c) fr = false /\
      raises (converting_assign conv c) fr = false) /\
  (forall (v : T) (fr : frame T U),
      raises hard_reset fr = false /\ raises (construct v) fr = false) /\
  (forall opt (f : T -> W -> R * W) w,
      raises (optional_map_impl opt f) w = false) /\
  (forall opt (f : T -> W -> unit * W) w,
      raises (optional_map_impl_void opt f) w = false) /\
  (forall opt (f : T -> W -> optional R * W) w,
      raises (and_then opt f) w = false) /\
  (forall (opt : optional T) (f : W -> optional T * W) w,
      raises (or_else opt f) w = false) /\
  (forall (opt : optional T) (g : W -> unit * W) w,
      raises (or_else_void opt g) w = false) /\
  (forall (opt : optional T) (f : T -> W -> R * W) (u : A) w,
      raises (map_or of_result of_fallback to_return opt f u) w = false) /\
  (forall (opt : optional T) (f : T -> W -> R * W) (d : W -> A * W) w,
      raises (map_or_else of_result of_fallback to_return opt f d) w = false) /\
  (forall (a b : optional T) (s : S),
      raises (copy_construct a) s = false /\
      raises (disjunction a b) s = false) /\
  (forall (a : optional T) (b : optional U) (u : U) (s : S),
      (raises (operator_eq eqTU a b) s = false /\
       raises (operator_ne neTU a b) s = false /\
       raises (operator_lt ltTU a b) s = false /\
       raises (operator_gt gtTU a b) s = false /\
       raises (operator_le leTU a b) s = false /\
       raises (operator_ge geTU a b) s = false) /\
      (raises (operator_eq_value eqTU a u) s = false /\
       raises (operator_ne_value neTU a u) s = false /\
       raises (operator_lt_value ltTU a u) s = false /\
       raises (operator_gt_value gtTU a u) s = false /\
       raises (operator_le_value leTU a u) s = false /\
       raises (operator_ge_value geTU a u) s = false) /\
      (raises (value_operator_eq eqUT u a) s = false /\
       raises (value_operator_ne neUT u a) s = false /\
       raises (value_operator_lt ltUT u a) s = false /\
       raises (value_operator_gt gtUT u a) s = false /\
       raises (value_operator_le leUT u a) s = false /\
       raises (value_operator_ge geUT u a) s = false) /\
      raises (hash hashT a) s = false).
Proof.
  split; [reflexivity |]. split; [reflexivity |].
  split; [exact value_raises |]. split; [exact call_raises |].
  split; [apply construction_never_raises |].
  split; [apply (construction_never_raises (T := T) (U := U)) |].
  split; [apply (construction_never_raises (T := T) (U := U)) |].
  pose proof (@combinators_never_raise T R A C W S
                of_result of_fallback to_return) as Hc.
  repeat (split; [apply Hc |]).
  intros a b u s. apply operators_never_raise.
Qed.

(** ** take *)

(** C3.  [take()] on a well-formed optional returns an optional in the
    state the source was in (holding the source's value, or empty) and
    leaves the source empty; the argument slot of the frame is untouched. *)
Theorem take_returns_prior_state_and_clears
  {T} `{Movable T} (c : category) (opt b : optional T) (tr : list event)
  (Hinv : invariant opt) :
  exists fr',
    take c (mk_frame opt b tr) = Ok opt fr' /\
    has_value (this fr') = false /\
    this fr' = nullopt /\
    rhs fr' = b.
Proof.
  apply invariant_cases in Hinv. destruct Hinv as [-> | [v ->]].
  - exists (mk_frame nullopt b (tr ++ [])). repeat split.
  - exists (mk_frame nullopt b ((tr ++ [Constructed Local]) ++ [Destroyed This])).
    destruct c; repeat split.
Qed.

Lemma take_returns_prior_state_and_clears_witness :
  invariant (in_place 7) /\
  exists fr',
    take lvalue (mk_frame (in_place 7) (@nullopt nat) []) = Ok (in_place 7) fr' /\
    has_value (this fr') = false /\
    this fr' = nullopt /\
    rhs fr' = nullopt.
Proof.
  split; [reflexivity |].
  apply (take_returns_prior_state_and_clears lvalue (opt := in_place 7)).
  reflexivity.
Defined.

(** ** map and and_then *)

(** C4.  On an optional holding [v], [map(f)] invokes [f] on [v] once and
    returns an optional holding the result, or holding [monostate] when
    [f] returns [void]; on an empty optional it returns an empty optional
    and leaves everything a callable can touch as it was, whatever [f]
    is: [f] is not invoked. *)
Theorem map_wraps_or_short_circuits {W T R} :
  (forall (v : T) (f : T -> W -> R * W) (w : W),
      optional_map_impl (in_place v) f w =
      Ok (in_place (fst (f v w))) (snd (f v w))) /\
  (forall (v : T) (g : T -> W -> unit * W) (w : W),
      optional_map_impl_void (in_place v) g w =
      Ok (in_place Monostate) (snd (g v w))) /\
  (forall (f : T -> W -> R * W) (w : W),
      optional_map_impl nullopt f w = Ok nullopt w) /\
  (forall (g : T -> W -> unit * W) (w : W),
      optional_map_impl_void nullopt g w = Ok nullopt w).
Proof.
  repeat split; intros; run; destruct (_ v w); reflexivity.
Qed.

(** C5.  On an optional holding [v], [and_then(f)] is the call [f(v)]
    itself, its optional result returned as it is; on an empty optional it
    returns an empty optional without invoking [f]. *)
Theorem and_then_flattens {W T R} :
  (forall (v : T) (f : T -> W -> optional R * W) (w : W),
      and_then (in_place v) f w = invoke f v w /\
      and_then (in_place v) f w = Ok (fst (f v w)) (snd (f v w))) /\
  (forall (f : T -> W -> optional R * W) (w : W),
      and_then nullopt f w = Ok nullopt w).
Proof.
  repeat split; intros; run; destruct (f v w); reflexivity.
Qed.

(** ** swap *)

Lemma swap_both {T} `{Movable T} (a b : T) tr :
  swap (mk_frame (in_place a) (in_place b) tr) =
  Ok tt (mk_frame (in_place b) (in_place a) (tr ++ [Swapped])).
Proof. reflexivity. Qed.

Lemma swap_neither {T} `{Movable T} tr :
  swap (mk_frame (@nullopt T) nullopt tr) = Ok tt (mk_frame nullopt nullopt tr).
Proof. reflexivity. Qed.

(** When exactly one side holds a value, the value is move-constructed in
    the other side's storage and the source object is destroyed, but
    neither [has_value_] is written. *)
Lemma swap_only_this {T} `{Movable T} (v : T) tr :
  swap (mk_frame (in_place v) nullopt tr) =
  Ok tt (mk_frame (mk_optional None true) (mk_optional (Some v) false)
                  ((tr ++ [Constructed Rhs]) ++ [Destroyed This])).
Proof. reflexivity. Qed.

Lemma swap_only_rhs {T} `{Movable T} (v : T) tr :
  swap (mk_frame nullopt (in_place v) tr) =
  Ok tt (mk_frame (mk_optional (Some v) false) (mk_optional None true)
                  ((tr ++ [Constructed This]) ++ [Destroyed Rhs])).
Proof. reflexivity. Qed.

(** C6 (defect in the code).  The claim: when exactly one of [a], [b]
    holds a value, [a.swap(b)] moves it into the other and the holder
    becomes empty.  In the code, for [optional<int> a(1), b; a.swap(b);]
    the value is moved into [b]'s storage and [a]'s object is destroyed,
    but the discriminants stay as they were: [a.has_value()] is still true
    and [b.has_value()] still false, so [b.value()] throws and [*a] reads
    a destroyed object. *)
Theorem swap_one_holding_keeps_discriminants :
  swap (mk_frame (in_place 1) nullopt []) =
    Ok tt (mk_frame (mk_optional None true) (mk_optional (Some 1) false)
                    [Constructed Rhs; Destroyed This]) /\
  (swap ;; has_value_of this_) (mk_frame (in_place 1) nullopt []) =
    Ok true (mk_frame (mk_optional None true) (mk_optional (Some 1) false)
                      [Constructed Rhs; Destroyed This]) /\
  (swap ;; has_value_of rhs_) (mk_frame (in_place 1) nullopt []) =
    Ok false (mk_frame (mk_optional None true) (mk_optional (Some 1) false)
                       [Constructed Rhs; Destroyed This]) /\
  (swap ;; deref) (mk_frame (in_place 1) nullopt []) = Undefined /\
  swap (mk_frame nullopt (in_place 1) []) =
    Ok tt (mk_frame (mk_optional (Some 1) false) (mk_optional None true)
                    [Constructed This; Destroyed Rhs]).
Proof. repeat split. Qed.

(** ** Relational operators *)

(** C7.  On well-formed optionals [operator==] returns true exactly when
    both are empty or both hold values that [T]'s [==] finds equal; and an
    optional compares equal to [nullopt], on either side, exactly when it
    is empty. *)
Theorem operator_eq_characterised
  {S T U} (eqTU : T -> U -> bool) (a : optional T) (b : optional U) (s : S)
  (Ha : invariant a) (Hb : invariant b) :
  (exists r,
      operator_eq eqTU a b s = Ok r s /\
      (r = true <->
       (a = nullopt /\ b = nullopt) \/
       (exists va vb, a = in_place va /\ b = in_place vb /\ eqTU va vb = true))) /\
  (operator_eq_nullopt a = true <-> a = nullopt) /\
  (nullopt_operator_eq a = true <-> a = nullopt) /\
  operator_eq_nullopt a = negb (has_value a).
Proof.
  apply invariant_cases in Ha. apply invariant_cases in Hb.
  destruct Ha as [-> | [va ->]]; destruct Hb as [-> | [vb ->]].
  - split; [exists true; split; [reflexivity |] |].
    + split; auto.
    + repeat split.
  - split; [exists false; split; [reflexivity |] |].
    + split; [discriminate |].
      intros [[_ E] | (x & y & E & _)]; discriminate.
    + repeat split.
  - split; [exists false; split; [reflexivity |] |].
    + split; [discriminate |].
      intros [[E _] | (x & y & _ & E & _)]; discriminate.
    + repeat split; discriminate.
  - split; [exists (eqTU va vb); split; [reflexivity |] |].
    + split.
      * intros E. right. exists va, vb. auto.
      * intros [[E _] | (x & y & Ex & Ey & E)]; [discriminate |].
        injection Ex as <-. injection Ey as <-. exact E.
    + repeat split; discriminate.
Qed.

Lemma operator_eq_characterised_witness :
  invariant (in_place 3) /\ invariant (in_place 3) /\
  (exists r,
      operator_eq Nat.eqb (in_place 3) (in_place 3) tt = Ok r tt /\
      (r = true <->
       (in_place 3 = nullopt /\ in_place 3 = nullopt) \/
       (exists va vb, in_place 3 = in_place va /\ in_place 3 = in_place vb /\
                      Nat.eqb va vb = true))) /\
  (operator_eq_nullopt (in_place 3) = true <-> in_place 3 = nullopt) /\
  (nullopt_operator_eq (in_place 3) = true <-> in_place 3 = nullopt) /\
  operator_eq_nullopt (in_place 3) = negb (has_value (in_place 3)).
Proof.
  split; [reflexivity |]. split; [reflexivity |].
  apply (operator_eq_characterised Nat.eqb (a := in_place 3) (b := in_place 3) tt);
    reflexivity.
Defined.

(** C8.  Under [operator<] an empty optional is less than every optional
    that holds a value, whatever [T]'s [<] is; an optional that holds a
    value is not less than an empty one; two that hold values compare as
    their values do under [T]'s [<]; and an empty optional is less than,
    and not equal to, any bare value. *)
Theorem operator_lt_orders_empty_first
  {S T U} (eqTU neTU ltTU : T -> U -> bool) (s : S) :
  (forall vb : U, operator_lt ltTU nullopt (in_place vb) s = Ok true s) /\
  (forall va : T, operator_lt ltTU (in_place va) nullopt s = Ok false s) /\
  (forall (va : T) (vb : U),
      operator_lt ltTU (in_place va) (in_place vb) s = Ok (ltTU va vb) s) /\
  (forall u : U, operator_lt_value ltTU nullopt u s = Ok true s) /\
  (forall u : U, operator_eq_value eqTU nullopt u s = Ok false s) /\
  (forall u : U, operator_ne_value neTU nullopt u s = Ok true s).
Proof. repeat split. Qed.

(** ** The class invariant *)

(** Every member function other than [swap] keeps well-formed optionals
    well-formed: [*this], the argument and an optional it returns. *)
Lemma call_preserves_invariant
  {T} `{Movable T} (m : method) (a b : optional T) tr r fr :
  m <> m_swap ->
  invariant a -> invariant b ->
  call m (mk_frame a b tr) = Ok r fr ->
  invariant (this fr) /\ invariant (rhs fr) /\
  (forall o, r = r_optional o -> invariant o).
Proof.
  intros Hm Ha Hb.
  apply invariant_cases in Ha. apply invariant_cases in Hb.
  destruct Ha as [-> | [va ->]]; destruct Hb as [-> | [vb ->]];
    destruct m; try congruence;
    try match goal with c : category |- _ => destruct c end;
    intros E; cbv in E; try discriminate;
    injection E as <- <-; repeat split; intros o Ho; try discriminate;
    injection Ho as <-; reflexivity.
Qed.

(** The copy and move constructors build a well-formed optional from a
    well-formed one. *)
Lemma constructor_preserves_invariant
  {T} `{Movable T} (c : category) (src : optional T) tr fr :
  invariant src ->
  copy_move_constructor c (mk_frame nullopt src tr) = Ok tt fr ->
  invariant (this fr) /\ invariant (rhs fr).
Proof.
  intros Hs. apply invariant_cases in Hs.
  destruct Hs as [-> | [v ->]]; destruct c; intros E; cbv in E;
    injection E as <-; split; reflexivity.
Qed.

(** [swap] keeps the invariant when both sides or neither side hold a
    value. *)
Lemma swap_preserves_invariant_balanced
  {T} `{Movable T} (a b : optional T) tr fr :
  invariant a -> invariant b ->
  has_value a = has_value b ->
  swap (mk_frame a b tr) = Ok tt fr ->
  invariant (this fr) /\ invariant (rhs fr).
Proof.
  intros Ha Hb.
  apply invariant_cases in Ha. apply invariant_cases in Hb.
  destruct Ha as [-> | [va ->]]; destruct Hb as [-> | [vb ->]];
    intros Hh; try discriminate; intros E; cbv in E;
    injection E as <-; split; reflexivity.
Qed.

(** The converting constructors read [*rhs] unconditionally: from an empty
    [optional<U>] they have no defined behaviour. *)
Lemma converting_constructor_from_empty
  {T U} `{Movable T} `{Movable U} (conv : U -> T) (c : category) tr :
  converting_constructor conv c (mk_frame nullopt nullopt tr) = Undefined.
Proof. destruct c; reflexivity. Qed.

(** C9 (defect in the code).  The claim: every public operation keeps
    "storage populated iff [has_value_]", so only Empty and Holding are
    reachable.  In the code, [optional<int> a(1), b; a.swap(b);] leaves
    [a] with [has_value_] set over a destroyed object and [b] with a live
    object and [has_value_] clear: two reachable states outside the
    invariant. *)
Theorem swap_reaches_states_outside_invariant :
  reachable (mk_optional (@None nat) true) /\
  ~ invariant (mk_optional (@None nat) true) /\
  reachable (mk_optional (Some 1) false) /\
  ~ invariant (mk_optional (Some 1) false).
Proof.
  assert (E : call m_swap (mk_frame (in_place 1) nullopt []) =
              Ok r_void (mk_frame (mk_optional None true)
                                  (mk_optional (Some 1) false)
                                  [Constructed Rhs; Destroyed This]))
    by reflexivity.
  repeat split.
  - exact (reach_this m_swap (reach_in_place 1) reach_nullopt E).
  - discriminate.
  - exact (reach_rhs m_swap (reach_in_place 1) reach_nullopt E).
  - discriminate.
Qed.

(** ** optional<T&>: the converting assignment *)

(** C10.  [optional<T&>::operator=(const optional<U>&)] calls
    [rhs.value()] whatever [rhs] is: with an empty [rhs], of the reference
    or of the value specialisation, it throws [bad_optional_access] and
    the left side keeps its binding; with an [rhs] that holds a value the
    left side is bound to that object.  The copy assignment, by contrast,
    makes the left side empty. *)
Theorem ref_converting_assign_throws_on_empty {U : Type} :
  (forall lhs : OptionalRef.optional_ref,
      OptionalRef.converting_assign OptionalRef.nullopt lhs =
      Throw bad_optional_access lhs) /\
  (forall (a : OptionalRef.address) (lhs : OptionalRef.optional_ref),
      OptionalRef.converting_assign (OptionalRef.bound_to a) lhs =
      Ok tt (OptionalRef.bound_to a)) /\
  (forall (o : optional U) (a : OptionalRef.address)
          (lhs : OptionalRef.optional_ref),
      OptionalRef.converting_assign (OptionalRef.mk_located o a) lhs =
      if has_value o then Ok tt (OptionalRef.bound_to a)
      else Throw bad_optional_access lhs) /\
  (forall (rhs lhs : OptionalRef.optional_ref),
      raises (OptionalRef.converting_assign rhs) lhs =
      negb (OptionalRef.has_value rhs)) /\
  (forall (rhs : OptionalRef.located U) (lhs : OptionalRef.optional_ref),
      raises (OptionalRef.converting_assign rhs) lhs =
      negb (has_value (OptionalRef.object rhs))) /\
  (forall lhs : OptionalRef.optional_ref,
      OptionalRef.copy_assign OptionalRef.nullopt lhs =
      Ok tt OptionalRef.nullopt).
Proof.
  repeat split.
  - intros [[v|] [|]] a lhs; reflexivity.
  - intros [[a|]] lhs; reflexivity.
  - intros [[[v|] [|]] a] lhs; reflexivity.
Qed.

(** * Further properties of the header *)

(** Unfolds the operators and combinators of this part as well. *)
Ltac run_more :=
  cbv [operator_ne operator_gt operator_le operator_ge
       operator_le_value operator_gt_value operator_ge_value
       value_operator_eq value_operator_ne value_operator_lt
       value_operator_le value_operator_gt value_operator_ge
       copy_construct invoke0 or_else_void or_else map_or map_or_else
       conjunction disjunction make_optional hash];
  run.

(** ** Relational operators: the overloads agree *)

(** X1.  Each of the six operators between an optional and a bare value
    gives what the operator between two optionals gives when the value is
    wrapped in an optional, undefined cases included. *)
Theorem value_comparisons_agree_with_in_place
  {S T U} (eqTU neTU ltTU gtTU leTU geTU : T -> U -> bool)
  (a : optional T) (u : U) (s : S) :
  operator_eq_value eqTU a u s = operator_eq eqTU a (in_place u) s /\
  operator_ne_value neTU a u s = operator_ne neTU a (in_place u) s /\
  operator_lt_value ltTU a u s = operator_lt ltTU a (in_place u) s /\
  operator_le_value leTU a u s = operator_le leTU a (in_place u) s /\
  operator_gt_value gtTU a u s = operator_gt gtTU a (in_place u) s /\
  operator_ge_value geTU a u s = operator_ge geTU a (in_place u) s.
Proof.
  destruct a as [[v|] [|]]; repeat split.
Qed.

(** X2.  The same with the bare value on the left-hand side. *)
Theorem value_on_left_comparisons_agree_with_in_place
  {S T U} (eqUT neUT ltUT gtUT leUT geUT : U -> T -> bool)
  (u : U) (b : optional T) (s : S) :
  value_operator_eq eqUT u b s = operator_eq eqUT (in_place u) b s /\
  value_operator_ne neUT u b s = operator_ne neUT (in_place u) b s /\
  value_operator_lt ltUT u b s = operator_lt ltUT (in_place u) b s /\
  value_operator_le leUT u b s = operator_le leUT (in_place u) b s /\
  value_operator_gt gtUT u b s = operator_gt gtUT (in_place u) b s /\
  value_operator_ge geUT u b s = operator_ge geUT (in_place u) b s.
Proof.
  destruct b as [[v|] [|]]; repeat split.
Qed.

(** X3.  Each of the twelve operators against [nullopt] gives what the
    operator between two optionals gives against an empty optional; none
    of them reads a stored value. *)
Theorem nullopt_comparisons_agree_with_empty
  {S T U} (eqTU neTU ltTU gtTU leTU geTU : T -> U -> bool)
  (eqUT neUT ltUT gtUT leUT geUT : U -> T -> bool)
  (a : optional T) (s : S) :
  (operator_eq eqTU a (@nullopt U) s = Ok (operator_eq_nullopt a) s /\
   operator_ne neTU a (@nullopt U) s = Ok (operator_ne_nullopt a) s /\
   operator_lt ltTU a (@nullopt U) s = Ok (operator_lt_nullopt a) s /\
   operator_le leTU a (@nullopt U) s = Ok (operator_le_nullopt a) s /\
   operator_gt gtTU a (@nullopt U) s = Ok (operator_gt_nullopt a) s /\
   operator_ge geTU a (@nullopt U) s = Ok (operator_ge_nullopt a) s) /\
  (operator_eq eqUT (@nullopt U) a s = Ok (nullopt_operator_eq a) s /\
   operator_ne neUT (@nullopt U) a s = Ok (nullopt_operator_ne a) s /\
   operator_lt ltUT (@nullopt U) a s = Ok (nullopt_operator_lt a) s /\
   operator_le leUT (@nullopt U) a s = Ok (nullopt_operator_le a) s /\
   operator_gt gtUT (@nullopt U) a s = Ok (nullopt_operator_gt a) s /\
   operator_ge geUT (@nullopt U) a s = Ok (nullopt_operator_ge a) s).
Proof.
  destruct a as [[v|] [|]]; repeat split.
Qed.

(** ** Relational operators: how they relate to each other *)

(** X4.  When [T]'s [!=] is the negation of its [==], [operator!=] on
    optionals is the negation of [operator==], in every state. *)
Theorem operator_ne_negates_operator_eq
  {S T U} (eqTU neTU : T -> U -> bool) (a : optional T) (b : optional U) (s : S)
  (Hne : forall x y, neTU x y = negb (eqTU x y)) :
  operator_ne neTU a b s = (r <- operator_eq eqTU a b ;; ret (negb r)) s.
Proof.
  destruct a as [[v|] [|]], b as [[w|] [|]]; run_more; try reflexivity.
  simpl. rewrite Hne. reflexivity.
Qed.

Lemma operator_ne_negates_operator_eq_witness :
  (forall x y : nat, negb (Nat.eqb x y) = negb (Nat.eqb x y)) /\
  operator_ne (fun x y => negb (Nat.eqb x y)) (in_place 1) (in_place 2) tt =
  (r <- operator_eq Nat.eqb (in_place 1) (in_place 2) ;; ret (negb r)) tt.
Proof.
  split; [reflexivity |].
  apply (operator_ne_negates_operator_eq Nat.eqb (fun x y => negb (Nat.eqb x y))).
  reflexivity.
Defined.

(** X5.  When [T]'s [>] and [>=] are its [<] and [<=] with the operands
    exchanged, so are the operators on optionals, in every state. *)
Theorem operator_gt_ge_flip_operator_lt_le
  {S T U} (gtTU geTU : T -> U -> bool) (ltUT leUT : U -> T -> bool)
  (a : optional T) (b : optional U) (s : S)
  (Hgt : forall x y, gtTU x y = ltUT y x)
  (Hge : forall x y, geTU x y = leUT y x) :
  operator_gt gtTU a b s = operator_lt ltUT b a s /\
  operator_ge geTU a b s = operator_le leUT b a s.
Proof.
  destruct a as [[v|] [|]], b as [[w|] [|]]; run_more; simpl;
    rewrite ?Hgt, ?Hge; split; reflexivity.
Qed.

Lemma operator_gt_ge_flip_operator_lt_le_witness :
  (forall x y : nat, Nat.ltb y x = Nat.ltb y x) /\
  (forall x y : nat, Nat.leb y x = Nat.leb y x) /\
  operator_gt (fun x y => Nat.ltb y x) (in_place 3) (in_place 2) tt =
    operator_lt Nat.ltb (in_place 2) (in_place 3) tt /\
  operator_ge (fun x y => Nat.leb y x) (in_place 3) (in_place 2) tt =
    operator_le Nat.leb (in_place 2) (in_place 3) tt.
Proof.
  split; [reflexivity |]. split; [reflexivity |].
  apply (operator_gt_ge_flip_operator_lt_le
           (fun x y => Nat.ltb y x) (fun x y => Nat.leb y x) Nat.ltb Nat.leb);
    reflexivity.
Defined.

(** X6.  When [T]'s [x <= y] is the negation of [y < x], [a <= b] on
    optionals is the negation of [b < a], in every state: the six
    operators describe one order, with the empty optional at the bottom. *)
Theorem operator_le_negates_flipped_operator_lt
  {S T U} (leTU : T -> U -> bool) (ltUT : U -> T -> bool)
  (a : optional T) (b : optional U) (s : S)
  (Hle : forall x y, leTU x y = negb (ltUT y x)) :
  operator_le leTU a b s = (r <- operator_lt ltUT b a ;; ret (negb r)) s.
Proof.
  destruct a as [[v|] [|]], b as [[w|] [|]]; run_more; simpl;
    rewrite ?Hle; reflexivity.
Qed.

Lemma operator_le_negates_flipped_operator_lt_witness :
  (forall x y : nat, Nat.leb x y = negb (Nat.ltb y x)) /\
  operator_le Nat.leb (in_place 2) (@nullopt nat) tt =
  (r <- operator_lt Nat.ltb (@nullopt nat) (in_place 2) ;; ret (negb r)) tt.
Proof.
  assert (H : forall x y : nat, Nat.leb x y = negb (Nat.ltb y x))
    by (intros x y; apply Nat.leb_antisym).
  split; [exact H |].
  apply (operator_le_negates_flipped_operator_lt Nat.leb Nat.ltb). exact H.
Defined.

(** ** Member functions: invariant and object accounting *)

(** Well-formed optionals, as a case split. *)
Ltac well_formed H :=
  apply invariant_cases in H; destruct H as [-> | [? ->]].

(** X7.  Called on well-formed optionals, every member function keeps
    [*this], its argument and an optional it returns well formed,
    provided that [swap] is only called when both sides hold a value or
    neither does. *)
Theorem member_functions_preserve_invariant
  {T} `{Movable T} (m : method) (a b : optional T) tr r fr
  (Ha : invariant a) (Hb : invariant b)
  (Hm : m = m_swap -> has_value a = has_value b)
  (E : call m (mk_frame a b tr) = Ok r fr) :
  invariant (this fr) /\ invariant (rhs fr) /\
  (forall o, r = r_optional o -> invariant o).
Proof.
  destruct m;
    try (refine (@call_preserves_invariant T _ _ a b tr r fr _ Ha Hb E);
         discriminate).
  specialize (Hm eq_refl).
  well_formed Ha; well_formed Hb; try discriminate Hm;
    cbv in E; injection E as <- <-; repeat split; discriminate.
Qed.

Lemma member_functions_preserve_invariant_witness :
  invariant (in_place 7) /\ invariant (@nullopt nat) /\
  (@m_take nat lvalue = m_swap ->
   has_value (in_place 7) = has_value (@nullopt nat)) /\
  call (m_take lvalue) (mk_frame (in_place 7) nullopt []) =
    Ok (r_optional (in_place 7))
       (mk_frame nullopt nullopt [Constructed Local; Destroyed This]) /\
  invariant (@nullopt nat) /\ invariant (@nullopt nat) /\
  (forall o, r_optional (in_place 7) = r_optional o -> invariant o).
Proof.
  split; [reflexivity |]. split; [reflexivity |].
  split; [discriminate |]. split; [reflexivity |].
  apply (@member_functions_preserve_invariant
           nat _ (m_take lvalue) (in_place 7) nullopt []
           (r_optional (in_place 7))
           (mk_frame nullopt nullopt [Constructed Local; Destroyed This])).
  - reflexivity.
  - reflexivity.
  - discriminate.
  - reflexivity.
Defined.



(** ** Construction *)

(** X9.  The copy constructor gives the new optional the state of its
    well-formed argument and leaves the argument as it was; the move
    constructor gives the new optional the same state and leaves an
    argument that held [v] still holding a value, the moved-from [v].
    A [T] is constructed only when the argument holds one. *)
Theorem copy_move_constructor_takes_argument_state
  {T} `{Movable T} (c : category) (src : optional T) tr
  (Hs : invariant src) :
  copy_move_constructor c (mk_frame nullopt src tr) =
  Ok tt (mk_frame src
                  (match c, value_ src with
                   | xvalue, Some v => in_place (moved_from v)
                   | _, _ => src
                   end)
                  (if has_value src then tr ++ [Constructed This] else tr)).
Proof.
  well_formed Hs; destruct c; reflexivity.
Qed.

Lemma copy_move_constructor_takes_argument_state_witness :
  invariant (in_place [4]) /\
  copy_move_constructor xvalue (mk_frame nullopt (in_place [4]) []) =
  Ok tt (mk_frame (in_place [4]) (in_place []) [Constructed This]).
Proof.
  split; [reflexivity |].
  exact (@copy_move_constructor_takes_argument_state
           (list nat) _ xvalue (in_place [4]) [] eq_refl).
Defined.

(** X10.  A converting constructor builds, from a well-formed
    [optional<U>] that holds [u], an optional holding the converted value;
    from an empty one it has no defined behaviour, [*rhs] being read
    without a test. *)
Theorem converting_constructor_converts_or_is_undefined
  {T U} `{Movable T} `{Movable U} (conv : U -> T) (c : category)
  (src : optional U) tr (Hs : invariant src) :
  converting_constructor conv c (mk_frame nullopt src tr) =
  match value_ src with
  | Some u =>
      Ok tt (mk_frame (in_place (conv u))
                      (match c with
                       | lvalue => src
                       | xvalue => in_place (moved_from u)
                       end)
                      (tr ++ [Constructed This]))
  | None => Undefined
  end.
Proof.
  well_formed Hs; destruct c; reflexivity.
Qed.

Lemma converting_constructor_converts_or_is_undefined_witness :
  invariant (@nullopt nat) /\
  converting_constructor (fun n : nat => [n]) lvalue
                         (mk_frame nullopt (@nullopt nat) []) = Undefined.
Proof.
  split; [reflexivity |].
  exact (@converting_constructor_converts_or_is_undefined
           (list nat) nat _ _ (fun n : nat => [n]) lvalue (@nullopt nat) []
           eq_refl).
Defined.

(** ** Assignment *)

(** X11.  Unless both sides hold a value, copy and move assignment between
    well-formed optionals leave [*this] in the state the argument was in;
    a copy leaves the argument unchanged and a move leaves it holding a
    value whenever it held one. *)
Theorem assign_takes_argument_state_unless_both_hold
  {T} `{Movable T} (c : category) (a b : optional T) tr
  (Ha : invariant a) (Hb : invariant b)
  (Hnb : has_value a && has_value b = false) :
  exists fr',
    assign c (mk_frame a b tr) = Ok tt fr' /\
    this fr' = b /\
    has_value (rhs fr') = has_value b /\
    rhs fr' = match c, value_ b with
              | xvalue, Some v => in_place (moved_from v)
              | _, _ => b
              end.
Proof.
  well_formed Ha; well_formed Hb; try discriminate Hnb;
    destruct c; eexists; repeat split.
Qed.

Lemma assign_takes_argument_state_unless_both_hold_witness :
  invariant (@nullopt (list nat)) /\ invariant (in_place [5]) /\
  has_value (@nullopt (list nat)) && has_value (in_place [5]) = false /\
  exists fr',
    assign xvalue (mk_frame nullopt (in_place [5]) []) = Ok tt fr' /\
    this fr' = in_place [5] /\
    has_value (rhs fr') = has_value (in_place [5]) /\
    rhs fr' = in_place (moved_from [5]).
Proof.
  split; [reflexivity |]. split; [reflexivity |]. split; [reflexivity |].
  apply (@assign_takes_argument_state_unless_both_hold
           (list nat) _ xvalue nullopt (in_place [5]) []);
    reflexivity.
Defined.

(** X12.  The converting assignment operators with the identity conversion
    do exactly what [assign] does, in every state of both optionals. *)
Theorem converting_assign_identity_is_assign
  {T} `{Movable T} (c : category) (fr : frame T T) :
  converting_assign (fun v => v) c fr = assign c fr.
Proof.
  destruct fr as [[[v|] [|]] [[w|] [|]] tr]; destruct c; reflexivity.
Qed.

(** X13.  [a = v] leaves a well-formed [a] holding [v]: by [T]'s
    assignment operator when [a] held a value, by construction when it was
    empty; no destructor runs and the argument slot is untouched. *)
Theorem assign_forward_holds_value
  {T} `{Movable T} (v : T) (a b : optional T) tr (Ha : invariant a) :
  assign_forward v (mk_frame a b tr) =
  Ok tt (mk_frame (in_place v) b
                  (tr ++ [if has_value a then Assigned This
                          else Constructed This])).
Proof.
  well_formed Ha; reflexivity.
Qed.

Lemma assign_forward_holds_value_witness :
  invariant (in_place 1) /\
  assign_forward 2 (mk_frame (in_place 1) (@nullopt nat) []) =
  Ok tt (mk_frame (in_place 2) nullopt [Assigned This]).
Proof.
  split; [reflexivity |].
  exact (@assign_forward_holds_value nat _ 2 (in_place 1) nullopt [] eq_refl).
Defined.

(** ** reset, emplace, value_or, take, swap *)

(** X14.  [reset()] empties a well-formed optional, after which [value()]
    throws; a second [reset()] changes nothing, in any state; and
    [operator=(nullopt_t)] is the same function. *)
Theorem reset_empties_and_is_idempotent
  {T} `{Movable T} (a b : optional T) tr (Ha : invariant a) :
  (exists tr',
      reset (mk_frame a b tr) = Ok tt (mk_frame nullopt b tr') /\
      (reset ;; value) (mk_frame a b tr) =
        Throw bad_optional_access (mk_frame nullopt b tr')) /\
  (forall fr : frame T T, (reset ;; reset) fr = reset fr) /\
  (forall fr : frame T T, assign_nullopt fr = reset fr).
Proof.
  split; [| split].
  - well_formed Ha; eexists; split; reflexivity.
  - intros [[[v|] [|]] rhs tr0]; reflexivity.
  - intros fr; reflexivity.
Qed.

Lemma reset_empties_and_is_idempotent_witness :
  invariant (in_place 3) /\
  (exists tr',
      reset (mk_frame (in_place 3) (@nullopt nat) []) =
        Ok tt (mk_frame nullopt nullopt tr') /\
      (reset ;; value) (mk_frame (in_place 3) (@nullopt nat) []) =
        Throw bad_optional_access (mk_frame nullopt nullopt tr')) /\
  (forall fr : frame nat nat, (reset ;; reset) fr = reset fr) /\
  (forall fr : frame nat nat, assign_nullopt fr = reset fr).
Proof.
  split; [reflexivity |].
  exact (@reset_empties_and_is_idempotent nat _ (in_place 3) nullopt [] eq_refl).
Defined.

(** X15.  [emplace(args...)] on a well-formed optional returns the new
    value and leaves the optional holding it; a value held before is
    destroyed first, exactly once, and [value()] afterwards returns the
    new value. *)
Theorem emplace_destroys_then_constructs
  {T} `{Movable T} (v : T) (a b : optional T) tr (Ha : invariant a) :
  emplace v (mk_frame a b tr) =
    Ok v (mk_frame (in_place v) b
                   (tr ++ (if has_value a then [Destroyed This] else [])
                       ++ [Constructed This])) /\
  (emplace v ;; value) (mk_frame a b tr) =
    Ok v (mk_frame (in_place v) b
                   (tr ++ (if has_value a then [Destroyed This] else [])
                       ++ [Constructed This])).
Proof.
  well_formed Ha; split; cbv - [app]; rewrite <- ?app_assoc; reflexivity.
Qed.

Lemma emplace_destroys_then_constructs_witness :
  invariant (in_place 1) /\
  emplace 5 (mk_frame (in_place 1) (@nullopt nat) []) =
    Ok 5 (mk_frame (in_place 5) nullopt [Destroyed This; Constructed This]) /\
  (emplace 5 ;; value) (mk_frame (in_place 1) (@nullopt nat) []) =
    Ok 5 (mk_frame (in_place 5) nullopt [Destroyed This; Constructed This]).
Proof.
  split; [reflexivity |].
  exact (@emplace_destroys_then_constructs nat _ 5 (in_place 1) nullopt []
           eq_refl).
Defined.

(** X16.  [value_or(u)] on a well-formed optional returns the held value,
    or [u] when there is none, and changes nothing; where [value()]
    returns normally, [value_or] returns the same. *)
Theorem value_or_returns_value_or_fallback
  {T} `{Movable T} (u : T) (a b : optional T) tr (Ha : invariant a) :
  value_or u (mk_frame a b tr) =
    Ok (match value_ a with Some v => v | None => u end) (mk_frame a b tr) /\
  (has_value a = true -> value_or u (mk_frame a b tr) = value (mk_frame a b tr)).
Proof.
  well_formed Ha; split; try reflexivity; discriminate.
Qed.

Lemma value_or_returns_value_or_fallback_witness :
  invariant (@nullopt nat) /\
  value_or 8 (mk_frame (@nullopt nat) (@nullopt nat) []) =
    Ok 8 (mk_frame nullopt nullopt []) /\
  (has_value (@nullopt nat) = true ->
   value_or 8 (mk_frame (@nullopt nat) (@nullopt nat) []) =
   value (mk_frame (@nullopt nat) (@nullopt nat) [])).
Proof.
  split; [reflexivity |].
  exact (@value_or_returns_value_or_fallback nat _ 8 nullopt nullopt []
           eq_refl).
Defined.

(** X17.  After one [take()] on a well-formed optional a second [take()]
    returns an empty optional, and [value()] throws. *)
Theorem take_twice_returns_empty
  {T} `{Movable T} (c c' : category) (a b : optional T) tr
  (Ha : invariant a) :
  (exists tr',
      (take c ;; take c') (mk_frame a b tr) =
      Ok nullopt (mk_frame nullopt b tr')) /\
  (exists tr',
      (take c ;; value) (mk_frame a b tr) =
      Throw bad_optional_access (mk_frame nullopt b tr')).
Proof.
  well_formed Ha; destruct c, c'; split; eexists; reflexivity.
Qed.

Lemma take_twice_returns_empty_witness :
  invariant (in_place [2]) /\
  (exists tr',
      (take xvalue ;; take lvalue) (mk_frame (in_place [2]) nullopt []) =
      Ok nullopt (mk_frame nullopt nullopt tr')) /\
  (exists tr',
      (take xvalue ;; value) (mk_frame (in_place [2]) nullopt []) =
      Throw bad_optional_access (mk_frame nullopt nullopt tr')).
Proof.
  split; [reflexivity |].
  exact (@take_twice_returns_empty (list nat) _ xvalue lvalue (in_place [2])
           nullopt [] eq_refl).
Defined.

(** X18.  Two [swap]s in a row restore two well-formed optionals when both
    hold a value or neither does; when exactly one holds a value the
    second [swap] moves from an object the first one destroyed and has no
    defined behaviour. *)
Theorem swap_twice_restores_only_when_balanced
  {T} `{Movable T} (a b : optional T) tr
  (Ha : invariant a) (Hb : invariant b) :
  if Bool.eqb (has_value a) (has_value b) then
    exists tr', (swap ;; swap) (mk_frame a b tr) = Ok tt (mk_frame a b tr')
  else
    (swap ;; swap) (mk_frame a b tr) = Undefined.
Proof.
  well_formed Ha; well_formed Hb; simpl;
    try reflexivity; eexists; reflexivity.
Qed.

Lemma swap_twice_restores_only_when_balanced_witness :
  invariant (in_place 1) /\ invariant (in_place 2) /\
  exists tr',
    (swap ;; swap) (mk_frame (in_place 1) (in_place 2) []) =
    Ok tt (mk_frame (in_place 1) (in_place 2) tr').
Proof.
  split; [reflexivity |]. split; [reflexivity |].
  exact (@swap_twice_restores_only_when_balanced nat _ (in_place 1) (in_place 2)
           [] eq_refl eq_refl).
Defined.

(** ** or_else, map_or, map_or_else *)

(** X19.  [or_else(f)] on an optional holding a value returns that
    optional and leaves everything [f] could touch as it was; on an empty
    optional it invokes [f] once and returns what [f] returns, or an empty
    optional when [f] returns [void]. *)
Theorem or_else_invokes_only_when_empty {W T} :
  (forall (v : T) (f : W -> optional T * W) (w : W),
      or_else (in_place v) f w = Ok (in_place v) w) /\
  (forall (v : T) (g : W -> unit * W) (w : W),
      or_else_void (in_place v) g w = Ok (in_place v) w) /\
  (forall (f : W -> optional T * W) (w : W),
      or_else nullopt f w = Ok (fst (f w)) (snd (f w))) /\
  (forall (g : W -> unit * W) (w : W),
      or_else_void (@nullopt T) g w = Ok nullopt (snd (g w))).
Proof.
  repeat split; intros; run_more; destruct (_ w); reflexivity.
Qed.


(** [optional<int> o(1); unsigned char r = o.map_or(f, c)] with an [f]
    that returns the [int] 256: the conditional expression has type
    [int] and its value is converted to [unsigned char] on return. *)
Lemma map_or_converts_result_to_fallback_type :
  map_or (fun r : nat => r) (fun u : nat => u) (fun c => c mod 256)
         (in_place 1) (fun _ (w : unit) => (256, w)) 7 tt = Ok 0 tt.
Proof. reflexivity. Qed.

(** ** Laws of map and and_then *)

(** X21.  Mapping [f] and then [g] is mapping their composition, the
    effects of [f] coming before those of [g], in every state of the
    optional. *)
Theorem map_composes {W T R R'} (opt : optional T)
  (f : T -> W -> R * W) (g : R -> W -> R' * W) (w : W) :
  (o <- optional_map_impl opt f ;; optional_map_impl o g) w =
  optional_map_impl opt (fun x w0 => let (y, w1) := f x w0 in g y w1) w.
Proof.
  destruct opt as [[v|] [|]]; run; try reflexivity.
  destruct (f v w) as [y w1]. destruct (g y w1). reflexivity.
Qed.

(** X22.  [map(f)] is [and_then] of [f] followed by [make_optional]; and
    [and_then] of [make_optional] alone returns a copy of the optional.
    Both hold in every state. *)
Theorem map_is_and_then_make_optional {W T R} (opt : optional T)
  (f : T -> W -> R * W) (w : W) :
  optional_map_impl opt f w =
    and_then opt (fun x w0 => let (r, w1) := f x w0 in (make_optional r, w1)) w /\
  and_then opt (fun x w0 => (make_optional x, w0)) w = copy_construct opt w.
Proof.
  destruct opt as [[v|] [|]]; run_more; split; try reflexivity.
  destruct (f v w); reflexivity.
Qed.

(** ** conjunction and disjunction *)

(** X23.  On well-formed optionals [disjunction] returns the first of its
    two operands that holds a value: the empty optional is its identity on
    both sides, it is associative, and the result holds a value exactly
    when one of the operands does.  [conjunction(u)] is well formed and
    holds [u] exactly when [*this] holds a value. *)
Theorem disjunction_is_first_holding
  {S T U} (a b c : optional T) (u : U) (s : S)
  (Ha : invariant a) (Hb : invariant b) (Hc : invariant c) :
  disjunction a b s = Ok (if has_value a then a else b) s /\
  disjunction nullopt b s = Ok b s /\
  disjunction a nullopt s = Ok a s /\
  (x <- disjunction a b ;; disjunction x c) s =
    (y <- disjunction b c ;; disjunction a y) s /\
  (exists r, disjunction a b s = Ok r s /\
             has_value r = has_value a || has_value b) /\
  invariant (conjunction a u) /\
  has_value (conjunction a u) = has_value a.
Proof.
  well_formed Ha; well_formed Hb; well_formed Hc;
    repeat split; eexists; split; reflexivity.
Qed.

Lemma disjunction_is_first_holding_witness :
  invariant (@nullopt nat) /\ invariant (in_place 2) /\ invariant (in_place 3) /\
  disjunction (@nullopt nat) (in_place 2) tt =
    Ok (if has_value (@nullopt nat) then nullopt else in_place 2) tt /\
  disjunction nullopt (in_place 2) tt = Ok (in_place 2) tt /\
  disjunction (@nullopt nat) nullopt tt = Ok nullopt tt /\
  (x <- disjunction (@nullopt nat) (in_place 2) ;; disjunction x (in_place 3)) tt =
    (y <- disjunction (in_place 2) (in_place 3) ;; disjunction nullopt y) tt /\
  (exists r, disjunction (@nullopt nat) (in_place 2) tt = Ok r tt /\
             has_value r = has_value (@nullopt nat) || has_value (in_place 2)) /\
  invariant (conjunction (@nullopt nat) true) /\
  has_value (conjunction (@nullopt nat) true) = has_value (@nullopt nat).
Proof.
  split; [reflexivity |]. split; [reflexivity |]. split; [reflexivity |].
  exact (@disjunction_is_first_holding unit nat bool nullopt (in_place 2)
           (in_place 3) true tt eq_refl eq_refl eq_refl).
Defined.

(** ** Equality, order and hashing *)

(** X24.  When [std::hash<T>] gives equal hashes to values that [T]'s [==]
    finds equal, [std::hash<optional<T>>] gives equal hashes to
    well-formed optionals that [operator==] finds equal; the empty
    optional hashes to 0. *)
Theorem hash_respects_operator_eq
  {S T} (eqT : T -> T -> bool) (hashT : T -> nat) (a b : optional T) (s : S)
  (Hh : forall x y, eqT x y = true -> hashT x = hashT y)
  (Ha : invariant a) (Hb : invariant b)
  (Heq : operator_eq eqT a b s = Ok true s) :
  hash hashT a s = hash hashT b s /\
  hash hashT (@nullopt T) s = Ok 0 s.
Proof.
  split; [| reflexivity].
  well_formed Ha; well_formed Hb; try reflexivity; try discriminate Heq.
  cbv in Heq. injection Heq as Heq.
  run_more. simpl. rewrite (Hh _ _ Heq). reflexivity.
Qed.

Lemma hash_respects_operator_eq_witness :
  (forall x y : nat, Nat.eqb x y = true -> (fun n => n) x = (fun n => n) y) /\
  invariant (in_place 4) /\ invariant (in_place 4) /\
  operator_eq Nat.eqb (in_place 4) (in_place 4) tt = Ok true tt /\
  hash (fun n => n) (in_place 4) tt = hash (fun n => n) (in_place 4) tt /\
  hash (fun n => n) (@nullopt nat) tt = Ok 0 tt.
Proof.
  assert (Hh : forall x y : nat,
             Nat.eqb x y = true -> (fun n => n) x = (fun n => n) y)
    by (intros x y E; apply Nat.eqb_eq; exact E).
  split; [exact Hh |]. split; [reflexivity |]. split; [reflexivity |].
  split; [reflexivity |].
  exact (@hash_respects_operator_eq unit nat Nat.eqb (fun n => n)
           (in_place 4) (in_place 4) tt Hh eq_refl eq_refl eq_refl).
Defined.

(** X25.  When [T]'s [==] is reflexive, symmetric and transitive, so is
    [operator==] on well-formed optionals. *)
Theorem operator_eq_is_equivalence
  {S T} (eqT : T -> T -> bool) (a b c : optional T) (s : S)
  (Hrefl : forall x, eqT x x = true)
  (Hsym : forall x y, eqT x y = eqT y x)
  (Htrans : forall x y z, eqT x y = true -> eqT y z = true -> eqT x z = true)
  (Ha : invariant a) (Hb : invariant b) (Hc : invariant c) :
  operator_eq eqT a a s = Ok true s /\
  operator_eq eqT a b s = operator_eq eqT b a s /\
  (operator_eq eqT a b s = Ok true s ->
   operator_eq eqT b c s = Ok true s ->
   operator_eq eqT a c s = Ok true s).
Proof.
  well_formed Ha; well_formed Hb; well_formed Hc; run; simpl;
    repeat split; intros; try discriminate; try reflexivity;
    rewrite ?Hrefl; try reflexivity;
    try (rewrite Hsym; reflexivity).
  repeat match goal with
         | E : Ok _ _ = Ok _ _ |- _ => injection E as E
         end.
  f_equal. eapply Htrans; eassumption.
Qed.

Lemma operator_eq_is_equivalence_witness :
  (forall x : nat, Nat.eqb x x = true) /\
  (forall x y : nat, Nat.eqb x y = Nat.eqb y x) /\
  (forall x y z : nat,
      Nat.eqb x y = true -> Nat.eqb y z = true -> Nat.eqb x z = true) /\
  invariant (in_place 1) /\ invariant (@nullopt nat) /\ invariant (in_place 1) /\
  operator_eq Nat.eqb (in_place 1) (in_place 1) tt = Ok true tt /\
  operator_eq Nat.eqb (in_place 1) (@nullopt nat) tt =
    operator_eq Nat.eqb (@nullopt nat) (in_place 1) tt /\
  (operator_eq Nat.eqb (in_place 1) (@nullopt nat) tt = Ok true tt ->
   operator_eq Nat.eqb (@nullopt nat) (in_place 1) tt = Ok true tt ->
   operator_eq Nat.eqb (in_place 1) (in_place 1) tt = Ok true tt).
Proof.
  assert (Ht : forall x y z : nat,
             Nat.eqb x y = true -> Nat.eqb y z = true -> Nat.eqb x z = true).
  { intros x y z E1 E2. apply Nat.eqb_eq in E1, E2. apply Nat.eqb_eq.
    congruence. }
  split; [exact Nat.eqb_refl |]. split; [exact Nat.eqb_sym |].
  split; [exact Ht |].
  split; [reflexivity |]. split; [reflexivity |]. split; [reflexivity |].
  exact (@operator_eq_is_equivalence unit nat Nat.eqb (in_place 1) nullopt
           (in_place 1) tt Nat.eqb_refl Nat.eqb_sym Ht eq_refl eq_refl eq_refl).
Defined.

(** X26.  When [T]'s [<] is irreflexive and transitive, [operator<] on
    well-formed optionals is irreflexive, asymmetric and transitive, with
    the empty optional below every optional that holds a value. *)
Theorem operator_lt_is_strict_order
  {S T} (ltT : T -> T -> bool) (a b c : optional T) (s : S)
  (Hirr : forall x, ltT x x = false)
  (Htrans : forall x y z, ltT x y = true -> ltT y z = true -> ltT x z = true)
  (Ha : invariant a) (Hb : invariant b) (Hc : invariant c) :
  operator_lt ltT a a s = Ok false s /\
  (operator_lt ltT a b s = Ok true s -> operator_lt ltT b a s = Ok false s) /\
  (operator_lt ltT a b s = Ok true s ->
   operator_lt ltT b c s = Ok true s ->
   operator_lt ltT a c s = Ok true s).
Proof.
  well_formed Ha; well_formed Hb; well_formed Hc; run; simpl;
    repeat split; intros; try discriminate; try reflexivity;
    rewrite ?Hirr; try reflexivity;
    repeat match goal with
           | E : Ok _ _ = Ok _ _ |- _ => injection E as E
           end.
  - f_equal.
    match goal with
    | E : ltT ?p ?q = true |- ltT ?q ?p = false =>
        destruct (ltT q p) eqn:E'; [| reflexivity];
        rewrite <- (Hirr p); symmetry; eapply Htrans; eassumption
    end.
  - f_equal.
    match goal with
    | E : ltT ?p ?q = true |- ltT ?q ?p = false =>
        destruct (ltT q p) eqn:E'; [| reflexivity];
        rewrite <- (Hirr p); symmetry; eapply Htrans; eassumption
    end.
  - f_equal. eapply Htrans; eassumption.
Qed.

Lemma operator_lt_is_strict_order_witness :
  (forall x : nat, Nat.ltb x x = false) /\
  (forall x y z : nat,
      Nat.ltb x y = true -> Nat.ltb y z = true -> Nat.ltb x z = true) /\
  invariant (@nullopt nat) /\ invariant (in_place 1) /\ invariant (in_place 2) /\
  operator_lt Nat.ltb (@nullopt nat) (@nullopt nat) tt = Ok false tt /\
  (operator_lt Nat.ltb (@nullopt nat) (in_place 1) tt = Ok true tt ->
   operator_lt Nat.ltb (in_place 1) (@nullopt nat) tt = Ok false tt) /\
  (operator_lt Nat.ltb (@nullopt nat) (in_place 1) tt = Ok true tt ->
   operator_lt Nat.ltb (in_place 1) (in_place 2) tt = Ok true tt ->
   operator_lt Nat.ltb (@nullopt nat) (in_place 2) tt = Ok true tt).
Proof.
  assert (Ht : forall x y z : nat,
             Nat.ltb x y = true -> Nat.ltb y z = true -> Nat.ltb x z = true).
  { intros x y z E1 E2. apply Nat.ltb_lt in E1, E2. apply Nat.ltb_lt. lia. }
  split; [exact Nat.ltb_irrefl |]. split; [exact Ht |].
  split; [reflexivity |]. split; [reflexivity |]. split; [reflexivity |].
  exact (@operator_lt_is_strict_order unit nat Nat.ltb nullopt (in_place 1)
           (in_place 2) tt Nat.ltb_irrefl Ht eq_refl eq_refl eq_refl).
Defined.

(** ** optional<T&>: reset, take and swap *)

(** X27.  For [optional<T&>], [swap] exchanges the two bindings, so that a
    binding held by one side only moves to the other side and the holder
    becomes empty, and two [swap]s restore both; [take()] returns the
    binding and leaves the optional empty, after which [value()] throws
    and a second [take()] returns an empty optional. *)
Theorem ref_swap_and_take (a b : OptionalRef.optional_ref) :
  OptionalRef.swap (a, b) = Ok tt (b, a) /\
  (OptionalRef.swap ;; OptionalRef.swap) (a, b) = Ok tt (a, b) /\
  OptionalRef.take a = Ok a OptionalRef.nullopt /\
  (OptionalRef.take ;; OptionalRef.take) a =
    Ok OptionalRef.nullopt OptionalRef.nullopt /\
  (OptionalRef.take ;; o <- get ;; OptionalRef.value o) a =
    Throw bad_optional_access OptionalRef.nullopt /\
  (OptionalRef.reset ;; o <- get ;; ret (OptionalRef.has_value o)) a =
    Ok false OptionalRef.nullopt.
Proof.
  destruct a as [[x|]], b as [[y|]]; repeat split.
Qed.

(** ** detail::conjunction *)

(** X28.  [detail::conjunction<Bs...>::value] is the logical AND of the
    [::value]s of its arguments: true exactly when all of them are. *)
Theorem detail_conjunction_is_and (bs : list bool) :
  Detail.conjunction bs = forallb (fun b => b) bs /\
  (Detail.conjunction bs = true <-> Forall (fun b => b = true) bs).
Proof.
  assert (E : Detail.conjunction bs = forallb (fun b => b) bs).
  { induction bs as [| b [| b' bs'] IH].
    - reflexivity.
    - simpl. destruct b; reflexivity.
    - change (Detail.conjunction (b :: b' :: bs'))
        with (if b then Detail.conjunction (b' :: bs') else b).
      rewrite IH. destruct b; reflexivity. }
  split; [exact E |].
  rewrite E, forallb_forall, Forall_forall. reflexivity.
Qed.
